(** * A shallow embedding of the go-opensearch wrapper

    The Go package [opensearch] wraps the official OpenSearch client:
    [client.go] builds the handle, [crud.go] holds the document, bulk, search
    and index operations, [models.go] the response shapes and the query
    builders.  This file embeds the parts of it whose behaviour is specified,
    and proves (or refutes) the specified properties.

    Modelling decisions, all of them visible in the definitions below:

    - A Go [map[string]interface{}] is a reference.  Maps that are passed to
      or returned by the package's functions live in a heap and are named by
      a [mapref] ([None] is Go's nil map).  What is stored inside a map, and
      the maps that the JSON decoder creates for a response, are carried by
      value.
    - [interface{}] values are a tagged union; [VChan] stands for the Go
      values that [encoding/json] refuses to encode.
    - An [error] is its message.  A run-time panic is an outcome of its own.
    - The wrapped client, the HTTP round trip, [encoding/json] and the order
      in which [range] visits a Go map are collaborators of the package,
      not part of it: they are the fields of the class [Externals].
    - The [context.Context] argument is only handed on to the wrapped client
      and is left out. *)

From Stdlib Require Import ZArith Floats.PrimFloat.
From stdpp Require Import gmap strings list fin_maps pretty.

(* stdpp's solvers clear hypotheses by name whether or not they exist. *)
#[local] Set Warnings "-clear-no-such-hyp".


(** ** Go values *)

#[warnings="-register-all"]
Inductive value :=
| VNil                              (* the nil interface value *)
| VBool (b : bool)
| VInt (n : Z)                      (* int *)
| VFloat (f : float)                (* float64 *)
| VString (s : string)
| VSlice (xs : list value)
| VMap (m : gmap string value)
| VChan.                            (* a value with no JSON encoding *)

(** [x != nil] for an [interface{}] *)
Definition not_nil (v : value) : bool :=
  match v with VNil => false | _ => true end.

(** Go's [error]: nil, or an error with its message. *)
Inductive error :=
| err_nil
| Errorf (msg : string).

Definition bytes := string.

(** The byte written by [buf.WriteByte('\n')]. *)
Definition newline : bytes := String (Ascii.ascii_of_nat 10) EmptyString.

(** ** The heap of Go maps and the requests put on the wire *)

Definition loc := positive.
Definition mapref := option loc.

(** The requests of [opensearchapi] that the embedded operations build. *)
Inductive Request :=
| IndicesExistsRequest (Index : list string)
| SearchRequest (Index : list string) (Body : bytes)
| BulkRequest (Body : bytes) (Refresh : string).

(** [opensearchapi.Response], as far as the package looks at it:
    the field [StatusCode], the text of [Status()] and the body. *)
Record Response := mkResponse {
  StatusCode : Z;
  Status : string;
  Body : bytes
}.

(** [res.IsError()] of the wrapped library: any status above 299. *)
Definition IsError (res : Response) : bool := (299 <? StatusCode res)%Z.

Record world := World {
  heap : gmap loc (gmap string value);
  wire : list Request
}.

(** Every location holds a map; one that was never written holds the empty
    map.  Allocation takes a location outside the heap's domain. *)
Definition heap_get (w : world) (l : loc) : gmap string value :=
  default ∅ (heap w !! l).

Definition heap_set (l : loc) (m : gmap string value) (w : world) : world :=
  World (<[l := m]> (heap w)) (wire w).

Definition wire_add (req : Request) (w : world) : world :=
  World (heap w) (wire w ++ [req])%list.

(** ** Computations: state passing, with panics *)

Inductive outcome (A : Type) :=
| Ret (a : A)
| Panic (msg : string).
Arguments Ret {A} a.
Arguments Panic {A} msg.

Definition M (A : Type) : Type := world → outcome A * world.

#[global] Instance M_ret : MRet M := λ A a w, (Ret a, w).

#[global] Instance M_bind : MBind M := λ A B k m w,
  match m w with
  | (Ret a, w') => k a w'
  | (Panic msg, w') => (Panic msg, w')
  end.

(** A computation that does not touch the world *)
Definition run {A} (o : outcome A) : M A := λ w, (o, w).

Definition panic {A} (msg : string) : M A := run (Panic msg).

(** [m := map[string]interface{}{...}] or [make(map[string]interface{})] *)
Definition make_map (content : gmap string value) : M mapref :=
  λ w, let l := fresh (dom (heap w)) in (Ret (Some l), heap_set l content w).

(** [v, ok := m[k]]; reading a nil map finds nothing. *)
Definition map_index (m : mapref) (k : string) : M (option value) :=
  λ w, match m with
       | Some l => (Ret (heap_get w l !! k), w)
       | None => (Ret None, w)
       end.

(** [m[k] = v]; a write to a nil map panics. *)
Definition map_assign (m : mapref) (k : string) (v : value) : M unit :=
  match m with
  | Some l => λ w, (Ret tt, heap_set l (<[k := v]> (heap_get w l)) w)
  | None => panic "assignment to entry in nil map"
  end.

(** [delete(m, k)]; a no-op on a nil map. *)
Definition map_delete (m : mapref) (k : string) : M unit :=
  λ w, match m with
       | Some l => (Ret tt, heap_set l (delete k (heap_get w l)) w)
       | None => (Ret tt, w)
       end.

(** The value a map has when it is stored in an [interface{}] or handed to
    the encoder: its present content, or nil. *)
Definition snapshot_at (w : world) (m : mapref) : value :=
  match m with
  | Some l => VMap (heap_get w l)
  | None => VNil
  end.

Definition snapshot (m : mapref) : M value :=
  λ w, (Ret (snapshot_at w m), w).

Definition snapshots (ms : list mapref) : M (list value) :=
  λ w, (Ret (snapshot_at w <$> ms), w).

(** ** models.go: response shapes *)

(** [Hit]; a hit that carries no [_source] decodes to a nil map. *)
Record Hit := mkHit {
  hit_Index : string;
  hit_ID : string;
  hit_Score : float;
  hit_Source : option (gmap string value)
}.

(** [SearchResponse] *)
Record SearchResponse := mkSearchResponse {
  sr_Took : Z;
  sr_Total_Value : Z;
  sr_Total_Relation : string;
  sr_MaxScore : float;
  sr_Hits : list Hit                (* [response.Hits.Hits] *)
}.

(** The anonymous struct [BulkItem.Error] *)
Record BulkError := mkBulkError {
  Type_ : string;
  Reason : string
}.

(** [BulkItem] *)
Record BulkItem := mkBulkItem {
  bi_Index : string;
  bi_ID : string;
  bi_Version : Z;
  bi_Result : string;
  bi_Status : Z;
  bi_Error : BulkError
}.

(** [BulkResponse]; [Items] is a [[]map[string]BulkItem]. *)
Record BulkResponse := mkBulkResponse {
  br_Took : Z;
  Errors : bool;
  Items : list (gmap string BulkItem)
}.

(** ** client.go: configuration and handle *)

Record Config := mkConfig {
  Addresses : list string;
  Username : string;
  Password : string;
  InsecureSkipVerify : bool
}.

(** [tls.Config] and [http.Transport], with the one field that is set. *)
Record tls_Config := { tls_InsecureSkipVerify : bool }.
Record http_Transport := { TLSClientConfig : option tls_Config }.

(** [opensearch.Config] of the wrapped library *)
Record opensearch_Config := {
  os_Addresses : list string;
  os_Username : string;
  os_Password : string;
  os_Transport : option http_Transport
}.

(** ** The collaborators of the package *)

Class Externals := {
  (** [*opensearch.Client] of the wrapped library *)
  opensearch_Client : Type;
  (** [opensearch.NewClient]: a client, or the text of its error *)
  opensearch_NewClient : opensearch_Config → string + opensearch_Client;
  (** [req.Do(ctx, c.client)]: what comes back for a request, given the
      requests that went out before it: a response, or the text of the
      transport error *)
  Do : opensearch_Client → list Request → Request → string + Response;
  (** [json.Marshal] *)
  Marshal : value → string + bytes;
  (** [json.NewDecoder(body).Decode(&v)] at the two response types *)
  Decode_SearchResponse : bytes → string + SearchResponse;
  Decode_BulkResponse : bytes → string + BulkResponse;
  (** the order in which a [range] statement visits a map: any order, but
      each entry once *)
  range_order : ∀ A : Type, gmap string A → list (string * A);
  range_order_perm : ∀ A (m : gmap string A), range_order A m ≡ₚ map_to_list m
}.
Arguments range_order {_ _} m.

Section package.
Context `{!Externals}.

(** [Client] *)
Record Client := mkClient { client : opensearch_Client }.

(** [NewClient]; the result pair is the handle (nil on failure) and the
    error. *)
Definition NewClient (config : Config) : option Client * error :=
  if (length (Addresses config) =? 0)%nat then
    (None, Errorf "at least one address is required")
  else
    let cfg := {| os_Addresses := Addresses config;
                  os_Username := Username config;
                  os_Password := Password config;
                  os_Transport := None |} in
    let cfg :=
      if InsecureSkipVerify config then
        {| os_Addresses := os_Addresses cfg;
           os_Username := os_Username cfg;
           os_Password := os_Password cfg;
           os_Transport := Some {| TLSClientConfig :=
                                     Some {| tls_InsecureSkipVerify := true |} |} |}
      else cfg in
    match opensearch_NewClient cfg with
    | inl err => (None, Errorf ("failed to create OpenSearch client: " +:+ err))
    | inr client => (Some (mkClient client), err_nil)
    end.

(** [req.Do(ctx, c.client)]: the request goes on the wire. *)
Definition send (c : Client) (req : Request) : M (string + Response) :=
  λ w, (Ret (Do (client c) (wire w) req), wire_add req w).

(** ** models.go: [parseResponse] and the query builders *)

Definition parseResponse {A} (decode : bytes → string + A) (body : bytes)
  : error + A :=
  match decode body with
  | inl err => inl (Errorf ("failed to parse response: " +:+ err))
  | inr v => inr v
  end.

Definition MatchAllQuery : M mapref :=
  make_map {[ "query" := VMap {[ "match_all" := VMap ∅ ]} ]}.

Definition MatchQuery (field value : string) : M mapref :=
  make_map {[ "query" := VMap {[ "match" := VMap {[ field := VString value ]} ]} ]}.

Definition NotMatchQuery (field value : string) : M mapref :=
  make_map {[ "query" := VMap {[ "bool" := VMap {[ "must_not" :=
    VSlice [ VMap {[ "match" := VMap {[ field := VString value ]} ]} ] ]} ]} ]}.

(** One step of the loop of [MatchMapQuery]: [append] of one match leaf. *)
Definition append_match (mustClauses : list value) (entry : string * value)
  : list value :=
  (mustClauses ++ [ VMap {[ "match" := VMap {[ entry.1 := entry.2 ]} ]} ])%list.

Definition MatchMapQuery (fieldValues : mapref) : M mapref :=
  λ w,
    let entries := match fieldValues with
                   | Some l => range_order (heap_get w l)
                   | None => []
                   end in
    let mustClauses := foldl append_match [] entries in
    make_map {[ "query" := VMap {[ "bool" := VMap {[ "must" := VSlice mustClauses ]} ]} ]} w.

Definition TermQuery (field : string) (value : value) : M mapref :=
  make_map {[ "query" := VMap {[ "term" := VMap {[ field := value ]} ]} ]}.

Definition NotTermQuery (field : string) (value : value) : M mapref :=
  make_map {[ "query" := VMap {[ "bool" := VMap {[ "must_not" :=
    VSlice [ VMap {[ "term" := VMap {[ field := value ]} ]} ] ]} ]} ]}.

(** The local map [rangeCondition] of [RangeQuery] *)
Definition rangeCondition (gte lte : value) : gmap string value :=
  let rangeCondition := ∅ in
  let rangeCondition :=
    if not_nil gte then <[ "gte" := gte ]> rangeCondition else rangeCondition in
  let rangeCondition :=
    if not_nil lte then <[ "lte" := lte ]> rangeCondition else rangeCondition in
  rangeCondition.

Definition RangeQuery (field : string) (gte lte : value) : M mapref :=
  make_map {[ "query" := VMap {[ "range" :=
    VMap {[ field := VMap (rangeCondition gte lte) ]} ]} ]}.

(** The local map [boolQuery] of [BoolQuery], for the clause lists as they
    are stored *)
Definition boolQuery (must should mustNot : list value) : gmap string value :=
  let boolQuery := ∅ in
  let boolQuery :=
    if (0 <? length must)%nat then <[ "must" := VSlice must ]> boolQuery else boolQuery in
  let boolQuery :=
    if (0 <? length should)%nat then <[ "should" := VSlice should ]> boolQuery else boolQuery in
  let boolQuery :=
    if (0 <? length mustNot)%nat then <[ "must_not" := VSlice mustNot ]> boolQuery else boolQuery in
  boolQuery.

Definition BoolQuery (must should mustNot : list mapref) : M mapref :=
  must ← snapshots must;
  should ← snapshots should;
  mustNot ← snapshots mustNot;
  make_map {[ "query" := VMap {[ "bool" := VMap (boolQuery must should mustNot) ]} ]}.

Definition WithSize (query : mapref) (size : Z) : M mapref :=
  map_assign query "size" (VInt size);;
  mret query.

Definition WithFrom (query : mapref) (from : Z) : M mapref :=
  map_assign query "from" (VInt from);;
  mret query.

Definition WithSort (query : mapref) (field order : string) : M mapref :=
  map_assign query "sort"
    (VSlice [ VMap {[ field := VMap {[ "order" := VString order ]} ]} ]);;
  mret query.

End package.

(** ** crud.go: the operations *)

Section crud.
Context `{!Externals}.

Definition IndexExists (c : Client) (index : string) : M (bool * error) :=
  res ← send c (IndicesExistsRequest [index]);
  match res with
  | inl err =>
      mret (false, Errorf ("failed to check index existence: " +:+ err))
  | inr res =>
      if (StatusCode res =? 404)%Z then mret (false, err_nil)
      else if IsError res then
        mret (false, Errorf ("index exists request failed with status: " +:+ Status res))
      else mret (true, err_nil)
  end.

(** The loop of [SearchDocuments] over [response.Hits.Hits]; [doc] is the
    hit's own map, written in place. *)
Fixpoint search_results (hits : list Hit) (results : list (gmap string value))
  : outcome (list (gmap string value)) :=
  match hits with
  | [] => Ret results
  | hit :: hits =>
      match hit_Source hit with
      | None => Panic "assignment to entry in nil map"
      | Some doc =>
          let doc := <[ "_id" := VString (hit_ID hit) ]> doc in
          let doc := <[ "_score" := VFloat (hit_Score hit) ]> doc in
          search_results hits (results ++ [doc])%list
      end
  end.

Definition SearchDocuments (c : Client) (index : string) (query : mapref)
  : M (list (gmap string value) * error) :=
  q ← snapshot query;
  match Marshal q with
  | inl err => mret ([], Errorf ("failed to marshal query: " +:+ err))
  | inr body =>
      res ← send c (SearchRequest [index] body);
      match res with
      | inl err => mret ([], Errorf ("failed to search documents: " +:+ err))
      | inr res =>
          if IsError res then
            mret ([], Errorf ("search request failed with status: " +:+ Status res))
          else
            match parseResponse Decode_SearchResponse (Body res) with
            | inl err => mret ([], err)
            | inr response =>
                results ← run (search_results (sr_Hits response) []);
                mret (results, err_nil)
            end
      end
  end.

Definition SearchAll (c : Client) (index : string)
  : M (list (gmap string value) * error) :=
  query ← make_map {[ "query" := VMap {[ "match_all" := VMap ∅ ]} ]};
  SearchDocuments c index query.

(** The action line of one document: the map literal, and the identifier
    put under ["_id"] when the document has one. *)
Definition bulk_action (index : string) (id : option value) : value :=
  let inner := {[ "_index" := VString index ]} in
  let inner := match id with
               | Some id => <[ "_id" := id ]> inner
               | None => inner
               end in
  VMap {[ "index" := VMap inner ]}.

(** The loop of [BulkCreate] over [documents], writing to [buf]; it ends
    early, with the error, when a line cannot be encoded. *)
Fixpoint bulk_lines (index : string) (documents : list mapref) (buf : bytes)
  : M (error + bytes) :=
  match documents with
  | [] => mret (inr buf)
  | doc :: documents =>
      id ← map_index doc "_id";
      match id with
      | Some _ => map_delete doc "_id"
      | None => mret tt
      end;;
      match Marshal (bulk_action index id) with
      | inl err => mret (inl (Errorf ("failed to marshal bulk action: " +:+ err)))
      | inr actionBytes =>
          let buf := buf +:+ actionBytes +:+ newline in
          d ← snapshot doc;
          match Marshal d with
          | inl err => mret (inl (Errorf ("failed to marshal document: " +:+ err)))
          | inr docBytes =>
              bulk_lines index documents (buf +:+ docBytes +:+ newline)
          end
      end
  end.

(** [fmt.Sprintf("%s: %s", op.Error.Type, op.Error.Reason)] *)
Definition error_message (op : BulkItem) : string :=
  Type_ (bi_Error op) +:+ ": " +:+ Reason (bi_Error op).

(** The inner loop over the operations of one item *)
Definition item_errors (errorMessages : list string) (item : gmap string BulkItem)
  : list string :=
  foldl (λ (errorMessages : list string) (entry : string * BulkItem),
           if decide (Type_ (bi_Error entry.2) = EmptyString) then errorMessages
           else (errorMessages ++ [error_message entry.2])%list)
        errorMessages (range_order item).

(** The outer loop over [response.Items] *)
Definition bulk_errors (items : list (gmap string BulkItem)) : list string :=
  foldl item_errors [] items.

Definition BulkCreate (c : Client) (index : string) (documents : list mapref)
  : M error :=
  if (length documents =? 0)%nat then mret err_nil
  else
    buf ← bulk_lines index documents EmptyString;
    match buf with
    | inl err => mret err
    | inr buf =>
        res ← send c (BulkRequest buf "true");
        match res with
        | inl err => mret (Errorf ("failed to perform bulk operation: " +:+ err))
        | inr res =>
            if IsError res then
              mret (Errorf ("bulk request failed with status: " +:+ Status res))
            else
              match parseResponse Decode_BulkResponse (Body res) with
              | inl err => mret err
              | inr response =>
                  if Errors response then
                    let errorMessages := bulk_errors (Items response) in
                    if (0 <? length errorMessages)%nat then
                      mret (Errorf ("bulk operation had errors: " +:+
                                    String.concat "; " errorMessages))
                    else mret err_nil
                  else mret err_nil
              end
        end
    end.

End crud.

(** ** client.go and crud.go: the remaining operations

    [Ping], [Info], the document operations and the index operations are
    one call on the wrapped client each.  Their calls are of other kinds
    than the requests above and are logged beside them. *)

(** [GetResponse] *)
Record GetResponse := mkGetResponse {
  gr_Index : string;
  gr_ID : string;
  gr_Version : Z;
  Found : bool;
  gr_Source : option (gmap string value)
}.

(** The calls of these operations: the requests of [opensearchapi] they
    build, and the method [Info] of the wrapped client. *)
Inductive Call :=
| PingRequest
| InfoCall
| IndexRequest (Index DocumentID : string) (Body : bytes) (Refresh : string)
| GetRequest (Index DocumentID : string)
| UpdateRequest (Index DocumentID : string) (Body : bytes) (Refresh : string)
| DeleteRequest (Index DocumentID : string) (Refresh : string)
| IndicesCreateRequest (Index : string) (Body : option bytes)
| IndicesDeleteRequest (Index : list string).

(** The world together with the calls that went out. *)
Record cluster := Cluster {
  local : world;
  calls : list Call
}.

Definition K (A : Type) : Type := cluster → outcome A * cluster.

#[global] Instance K_ret : MRet K := λ A a s, (Ret a, s).

#[global] Instance K_bind : MBind K := λ A B k m s,
  match m s with
  | (Ret a, s') => k a s'
  | (Panic msg, s') => (Panic msg, s')
  end.

Class ClusterExternals `{!Externals} := {
  (** [req.Do(ctx, c.client)] and [c.client.Info()]: what comes back for a
      call, given the requests and calls that went out before it *)
  Perform : opensearch_Client → list Request → list Call → Call →
            string + Response;
  (** [json.NewDecoder(body).Decode(&v)] at [GetResponse] and at
      [map[string]interface{}] (the body [null] leaves the map nil) *)
  Decode_GetResponse : bytes → string + GetResponse;
  Decode_object : bytes → string + option (gmap string value)
}.

Section operations.
Context `{!Externals, !ClusterExternals}.

(** The call goes out. *)
Definition perform (c : Client) (req : Call) : K (string + Response) :=
  λ s, (Ret (Perform (client c) (wire (local s)) (calls s) req),
        Cluster (local s) (calls s ++ [req])).

(** The present value of a map of the heap *)
Definition read_map (m : mapref) : K value :=
  λ s, (Ret (snapshot_at (local s) m), s).

Definition GetClient (c : Client) : opensearch_Client := client c.

Definition Ping (c : Client) : K error :=
  res ← perform c PingRequest;
  match res with
  | inl err => mret (Errorf ("ping failed: " +:+ err))
  | inr res =>
      if IsError res then
        mret (Errorf ("ping failed with status: " +:+ Status res))
      else mret err_nil
  end.

Definition Info (c : Client) : K (option (gmap string value) * error) :=
  res ← perform c InfoCall;
  match res with
  | inl err => mret (None, Errorf ("failed to get cluster info: " +:+ err))
  | inr res =>
      if IsError res then
        mret (None, Errorf ("info request failed with status: " +:+ Status res))
      else
        match parseResponse Decode_object (Body res) with
        | inl err => mret (None, err)
        | inr response => mret (response, err_nil)
        end
  end.

Definition CreateDocument (c : Client) (index id : string) (document : value)
  : K error :=
  match Marshal document with
  | inl err => mret (Errorf ("failed to marshal document: " +:+ err))
  | inr body =>
      res ← perform c (IndexRequest index id body "true");
      match res with
      | inl err => mret (Errorf ("failed to index document: " +:+ err))
      | inr res =>
          if IsError res then
            mret (Errorf ("index request failed with status: " +:+ Status res))
          else mret err_nil
      end
  end.

Definition GetDocument (c : Client) (index id : string)
  : K (option (gmap string value) * error) :=
  res ← perform c (GetRequest index id);
  match res with
  | inl err => mret (None, Errorf ("failed to get document: " +:+ err))
  | inr res =>
      if IsError res then
        if (StatusCode res =? 404)%Z then
          mret (None, Errorf "document not found")
        else
          mret (None, Errorf ("get request failed with status: " +:+ Status res))
      else
        match parseResponse Decode_GetResponse (Body res) with
        | inl err => mret (None, err)
        | inr response => mret (gr_Source response, err_nil)
        end
  end.

Definition UpdateDocument (c : Client) (index id : string) (updates : value)
  : K error :=
  let updateDoc := VMap {[ "doc" := updates ]} in
  match Marshal updateDoc with
  | inl err => mret (Errorf ("failed to marshal updates: " +:+ err))
  | inr body =>
      res ← perform c (UpdateRequest index id body "true");
      match res with
      | inl err => mret (Errorf ("failed to update document: " +:+ err))
      | inr res =>
          if IsError res then
            if (StatusCode res =? 404)%Z then mret (Errorf "document not found")
            else
              mret (Errorf ("update request failed with status: " +:+ Status res))
          else mret err_nil
      end
  end.

Definition DeleteDocument (c : Client) (index id : string) : K error :=
  res ← perform c (DeleteRequest index id "true");
  match res with
  | inl err => mret (Errorf ("failed to delete document: " +:+ err))
  | inr res =>
      if IsError res then
        if (StatusCode res =? 404)%Z then mret (Errorf "document not found")
        else
          mret (Errorf ("delete request failed with status: " +:+ Status res))
      else mret err_nil
  end.

(** The tail of [CreateIndex], once [bodyReader] is set *)
Definition create_index (c : Client) (index : string) (bodyReader : option bytes)
  : K error :=
  res ← perform c (IndicesCreateRequest index bodyReader);
  match res with
  | inl err => mret (Errorf ("failed to create index: " +:+ err))
  | inr res =>
      if IsError res then
        mret (Errorf ("create index request failed with status: " +:+ Status res))
      else mret err_nil
  end.

Definition CreateIndex (c : Client) (index : string) (body : mapref) : K error :=
  match body with
  | Some _ =>
      b ← read_map body;
      match Marshal b with
      | inl err => mret (Errorf ("failed to marshal index body: " +:+ err))
      | inr bodyBytes => create_index c index (Some bodyBytes)
      end
  | None => create_index c index None
  end.

Definition DeleteIndex (c : Client) (index : string) : K error :=
  res ← perform c (IndicesDeleteRequest [index]);
  match res with
  | inl err => mret (Errorf ("failed to delete index: " +:+ err))
  | inr res =>
      if IsError res then
        if (StatusCode res =? 404)%Z then mret (Errorf "index not found")
        else
          mret (Errorf ("delete index request failed with status: " +:+ Status res))
      else mret err_nil
  end.

End operations.

(** ** Vocabulary for the statements about the remaining operations *)

(** What comes back for the call [req] made through [c] in [s] *)
Definition answer `{!Externals, !ClusterExternals} (c : Client) (s : cluster)
    (req : Call) : string + Response :=
  Perform (client c) (wire (local s)) (calls s) req.

(** The cluster after the call [req] went out: no map and no request is
    changed, the call is the last of the log. *)
Definition after_call (s : cluster) (req : Call) : cluster :=
  Cluster (local s) (calls s ++ [req]).

(** ** Vocabulary for the statements about [BulkCreate] *)

(** The text of a bulk body, from its pairs of an action line and a
    document line: every line is followed by a newline. *)
Definition write_pairs (pairs : list (bytes * bytes)) : bytes :=
  foldr (λ pair rest, pair.1 +:+ newline +:+ pair.2 +:+ newline +:+ rest)
        EmptyString pairs.

(** The identifier found in a document when its turn comes, [seen] being
    the documents before it in the list: a map that occurs twice has lost
    its identifier by the second time. *)
Definition id_in_turn (w : world) (seen : list mapref) (doc : mapref)
  : option value :=
  match doc with
  | Some l => if decide (doc ∈ seen) then None else heap_get w l !! "_id"
  | None => None
  end.

(** The world after a document's turn in the loop: if the document has an
    identifier, its map has lost the key. *)
Definition after_turn (w : world) (doc : mapref) : world :=
  match doc with
  | Some l =>
      match heap_get w l !! "_id" with
      | Some _ => heap_set l (delete "_id" (heap_get w l)) w
      | None => w
      end
  | None => w
  end.

(** A document as it is encoded for its document line *)
Definition document_sent (w : world) (doc : mapref) : value :=
  match doc with
  | Some l => VMap (delete "_id" (heap_get w l))
  | None => VNil
  end.

(** Both lines of the document at position [i] of the list can be encoded:
    its action line, with the identifier the document has when its turn
    comes, and its document line. *)
Definition lines_encode `{!Externals} (index : string) (w : world)
    (documents : list mapref) (i : nat) (doc : mapref) : Prop :=
  (∃ actionBytes,
     Marshal (bulk_action index (id_in_turn w (take i documents) doc))
       = inr actionBytes) ∧
  (∃ docBytes, Marshal (document_sent w doc) = inr docBytes).

(** A line of the document at position [i] cannot be encoded, and [msg] is
    the message of the error for it: the action line is encoded first, the
    document line only when the action line has been written. *)
Definition line_fails `{!Externals} (index : string) (w : world)
    (documents : list mapref) (i : nat) (doc : mapref) (msg : string) : Prop :=
  (∃ err,
     Marshal (bulk_action index (id_in_turn w (take i documents) doc)) = inl err ∧
     msg = "failed to marshal bulk action: " +:+ err) ∨
  (∃ actionBytes err,
     Marshal (bulk_action index (id_in_turn w (take i documents) doc))
       = inr actionBytes ∧
     Marshal (document_sent w doc) = inl err ∧
     msg = "failed to marshal document: " +:+ err).

(** The error descriptions of a bulk response, item by item: one
    ["type: reason"] for every operation that has an error type. *)
Definition described_errors `{!Externals} (items : list (gmap string BulkItem))
  : list string :=
  item ← items;
  error_message <$>
    filter (λ op, Type_ (bi_Error op) ≠ EmptyString) ((range_order item).*2).

(** ** Concrete collaborators, to run the operations on examples

    A compact JSON encoder (keys in sorted order as [encoding/json] writes
    them, strings without escapes, a finite float as a fixed token, the
    encoder's error for a channel, NaN or an infinity), a wrapped
    constructor that rejects an address without a scheme, and a scripted
    server with decoding tables.  The theorems below hold for every instance
    of [Externals]; this one shows that the class is inhabited and serves
    the examples. *)

Module Sample.

Definition quote : string := String (Ascii.ascii_of_nat 34) EmptyString.

Fixpoint insert_member (kv : string * bytes) (l : list (string * bytes))
  : list (string * bytes) :=
  match l with
  | [] => [kv]
  | x :: l' => if String.leb kv.1 x.1 then kv :: l else x :: insert_member kv l'
  end.

Definition write_member (kv : string * bytes) : bytes :=
  quote +:+ kv.1 +:+ quote +:+ ":" +:+ kv.2.

(** Encoding fails with the text of the encoder's error. *)
#[local] Instance result_ret : MRet (sum string) := λ A a, inr a.
#[local] Instance result_bind : MBind (sum string) := λ A B k m,
  match m with
  | inl err => inl err
  | inr a => k a
  end.

Definition write_members (members : gmap string (string + bytes))
  : string + bytes :=
  l ← mapM (λ kv : string * (string + bytes), b ← kv.2; inr (kv.1, b))
           (map_to_list members);
  inr ("{" +:+ String.concat "," (write_member <$> foldr insert_member [] l) +:+ "}").

Fixpoint encode (v : value) : string + bytes :=
  match v with
  | VNil => inr "null"
  | VBool b => inr (if b then "true" else "false")
  | VInt n => inr (pretty n)
  | VFloat f =>
      if is_nan f then inl "json: unsupported value: NaN"
      else if is_infinity f then
        inl (if (f <? 0)%float then "json: unsupported value: -Inf"
             else "json: unsupported value: +Inf")
      else inr "<float64>"
  | VString s => inr (quote +:+ s +:+ quote)
  | VSlice xs => l ← mapM encode xs; inr ("[" +:+ String.concat "," l +:+ "]")
  | VMap m => write_members (encode <$> m)
  | VChan => inl "json: unsupported type: chan int"
  end.

Definition marshal (v : value) : string + bytes := encode v.

Definition has_scheme (addr : string) : bool :=
  match addr with
  | String c _ => negb (Ascii.eqb c (Ascii.ascii_of_nat 58))
  | EmptyString => true
  end.

(** The wrapped constructor parses every address; an address that starts
    with a colon has no scheme. *)
Definition new_client (cfg : opensearch_Config) : string + list string :=
  match filter (λ addr, has_scheme addr = false) (os_Addresses cfg) with
  | [] => inr (os_Addresses cfg)
  | addr :: _ =>
      inl ("cannot create client: cannot parse url: parse " +:+ quote +:+ addr
           +:+ quote +:+ ": missing protocol scheme")
  end.

Definition externals
    (server : list Request → Request → string + Response)
    (search_table : bytes → string + SearchResponse)
    (bulk_table : bytes → string + BulkResponse) : Externals :=
  {| opensearch_Client := list string;
     opensearch_NewClient := new_client;
     Do := λ _, server;
     Marshal := marshal;
     Decode_SearchResponse := search_table;
     Decode_BulkResponse := bulk_table;
     range_order := λ A m, map_to_list m;
     range_order_perm := λ A m, Permutation_refl _ |}.

(** A server that answers every request with [200 OK] and a fixed body. *)
Definition ok_server (body : bytes) : list Request → Request → string + Response :=
  λ _ _, inr (mkResponse 200 "200 OK" body).

Definition no_search : bytes → string + SearchResponse :=
  λ _, inl "unexpected end of JSON input".
Definition no_bulk : bytes → string + BulkResponse :=
  λ _, inl "unexpected end of JSON input".

Definition localhost : list string := ["http://localhost:9200"].

Definition empty_world : world := World ∅ [].

(** A server that answers every request with the given status. *)
Definition status_server (code : Z) (status : string)
  : list Request → Request → string + Response :=
  λ _ _, inr (mkResponse code status EmptyString).

(** The handle on the local cluster. *)
Definition handle (server : list Request → Request → string + Response)
    (search_table : bytes → string + SearchResponse)
    (bulk_table : bytes → string + BulkResponse)
  : @Client (externals server search_table bulk_table) :=
  @mkClient (externals server search_table bulk_table) localhost.

(** One article with an identifier, at location 1. *)
Definition one_document : world :=
  World {[ 1%positive := {[ "_id" := VString "1"; "title" := VString "a" ]} ]} [].

(** An article that cannot be encoded (its rating is not a number) at
    location 1, and one with an identifier at location 2. *)
Definition nan_then_document : world :=
  World {[ 1%positive := {[ "rating" := VFloat nan ]};
           2%positive := {[ "_id" := VString "2"; "title" := VString "b" ]} ]} [].

(** Two articles with identifiers. *)
Definition two_documents : world :=
  World {[ 1%positive := {[ "_id" := VString "1"; "title" := VString "a" ]};
           2%positive := {[ "_id" := VString "2"; "title" := VString "b" ]} ]} [].

(** A bulk response with the [errors] flag set whose only item has a
    reason but no error type. *)
Definition untyped_failure : BulkResponse :=
  mkBulkResponse 3 true
    [ {[ "index" := mkBulkItem "articles" "1" 0 EmptyString 400
                      (mkBulkError EmptyString "rejected") ]} ].

(** A bulk response whose only item has failed to parse. *)
Definition typed_failure : BulkResponse :=
  mkBulkResponse 3 true
    [ {[ "index" := mkBulkItem "articles" "1" 0 EmptyString 400
                      (mkBulkError "mapper_parsing_exception" "failed to parse") ]} ].

(** A search response with two hits. *)
Definition two_hits : SearchResponse :=
  mkSearchResponse 2 2 "eq" 1%float
    [ mkHit "articles" "1" 1%float (Some {[ "title" := VString "a" ]});
      mkHit "articles" "2" 0.5%float (Some {[ "title" := VString "b" ]}) ].

(** A world whose location 1 holds the match-all query. *)
Definition match_all_world : world :=
  World {[ 1%positive := {[ "query" := VMap {[ "match_all" := VMap ∅ ]} ]} ]} [].

End Sample.

(** * Properties *)

(** Splits a goal into its conjuncts, opens the hypotheses and closes what
    follows by injectivity and discrimination of constructors. *)
Ltac cases_done :=
  repeat split; intros;
  repeat match goal with
         | H : _ ∨ _ |- _ => destruct H
         | H : ∃ _, _ |- _ => destruct H
         | H : _ ∧ _ |- _ => destruct H
         end;
  simplify_eq; eauto 8; try congruence.

Section properties.
Context `{!Externals}.

(** ** The heap and byte strings *)

Lemma heap_get_set (l : loc) (m : gmap string value) (w : world) :
  heap_get (heap_set l m w) l = m.
Proof. unfold heap_get, heap_set. simpl. by rewrite lookup_insert_eq. Qed.

Lemma heap_get_set_ne (l l' : loc) (m : gmap string value) (w : world) :
  l ≠ l' → heap_get (heap_set l m w) l' = heap_get w l'.
Proof. intros. unfold heap_get, heap_set. simpl. by rewrite lookup_insert_ne. Qed.

Lemma string_app_assoc (s1 s2 s3 : string) :
  (s1 +:+ s2) +:+ s3 = s1 +:+ s2 +:+ s3.
Proof.
  induction s1 as [|a s1 IH]; [done|].
  change (String a ((s1 +:+ s2) +:+ s3) = String a (s1 +:+ s2 +:+ s3)).
  by f_equal.
Qed.

Lemma string_app_empty_r (s : string) : s +:+ EmptyString = s.
Proof.
  induction s as [|a s IH]; [done|].
  change (String a (s +:+ EmptyString) = String a s). by f_equal.
Qed.

(** A builder's map is new: its location was not in the heap before. *)
Lemma make_map_fresh (content : gmap string value) (w : world) :
  ∃ l, make_map content w = (Ret (Some l), heap_set l content w) ∧
       heap w !! l = None.
Proof.
  exists (fresh (dom (heap w))). split; [done|].
  apply not_elem_of_dom, is_fresh.
Qed.

(** ** Construction *)

(** The configuration [NewClient] hands to the wrapped constructor *)
Lemma NewClient_nonempty (config : Config) :
  Addresses config ≠ [] →
  ∃ cfg,
    os_Addresses cfg = Addresses config ∧
    os_Username cfg = Username config ∧
    os_Password cfg = Password config ∧
    os_Transport cfg =
      (if InsecureSkipVerify config
       then Some {| TLSClientConfig := Some {| tls_InsecureSkipVerify := true |} |}
       else None) ∧
    NewClient config =
      match opensearch_NewClient cfg with
      | inl err => (None, Errorf ("failed to create OpenSearch client: " +:+ err))
      | inr client => (Some (mkClient client), err_nil)
      end.
Proof.
  intros Hne. unfold NewClient.
  destruct (Addresses config) as [|a l] eqn:Ha; [done|]. simpl.
  destruct (InsecureSkipVerify config);
    (eexists (Build_opensearch_Config _ _ _ _); repeat split; reflexivity).
Qed.

(** C2 (as amended): [NewClient] fails with the error "at least one address
    is required" if and only if the address list is empty, and then returns
    no handle.  For a non-empty list it calls the wrapped constructor on the
    same addresses and credentials, with the TLS bypass only if requested;
    it returns a handle wrapping the underlying client when that constructor
    succeeds, and otherwise no handle and the constructor's error, wrapped. *)
Theorem NewClient_empty_iff_invalid (config : Config) :
  ((NewClient config).2 = Errorf "at least one address is required"
     ↔ Addresses config = []) ∧
  (Addresses config = [] → (NewClient config).1 = None) ∧
  (Addresses config ≠ [] →
   ∃ cfg,
     os_Addresses cfg = Addresses config ∧
     os_Username cfg = Username config ∧
     os_Password cfg = Password config ∧
     os_Transport cfg =
       (if InsecureSkipVerify config
        then Some {| TLSClientConfig := Some {| tls_InsecureSkipVerify := true |} |}
        else None) ∧
     match opensearch_NewClient cfg with
     | inr client => NewClient config = (Some (mkClient client), err_nil)
     | inl err =>
         NewClient config =
           (None, Errorf ("failed to create OpenSearch client: " +:+ err))
     end).
Proof.
  split; [split|split].
  - intros Herr. destruct (Addresses config) as [|a l] eqn:Ha; [done|].
    destruct (NewClient_nonempty config) as (cfg & _ & _ & _ & _ & Hrun).
    { by rewrite Ha. }
    rewrite Hrun in Herr.
    destruct (opensearch_NewClient cfg); simpl in Herr; discriminate.
  - intros Ha. unfold NewClient. by rewrite Ha.
  - intros Ha. unfold NewClient. by rewrite Ha.
  - intros Hne.
    destruct (NewClient_nonempty config Hne) as (cfg & H1 & H2 & H3 & H4 & Hrun).
    exists cfg. repeat (split; [done|]).
    by destruct (opensearch_NewClient cfg).
Qed.

(** ** Index existence *)

(** C7: [IndexExists] always returns.  When the response to the existence
    request has status 404 it returns [false] and no error; it returns an
    error exactly when the transport failed or the response is an error
    status other than 404, and then the boolean is [false]. *)
Theorem IndexExists_not_found_is_false (c : Client) (index : string) (w : world) :
  let answer := Do (client c) (wire w) (IndicesExistsRequest [index]) in
  let result := (IndexExists c index w).1 in
  (∃ found err, result = Ret (found, err)) ∧
  (∀ res, answer = inr res → StatusCode res = 404%Z →
     result = Ret (false, err_nil)) ∧
  (∀ found msg, result = Ret (found, Errorf msg) →
     found = false ∧
     ((∃ err, answer = inl err) ∨
      (∃ res, answer = inr res ∧ IsError res = true ∧ StatusCode res ≠ 404%Z))) ∧
  ((∃ err, answer = inl err) ∨
   (∃ res, answer = inr res ∧ IsError res = true ∧ StatusCode res ≠ 404%Z) →
   ∃ msg, result = Ret (false, Errorf msg)).
Proof.
  cbv zeta. unfold IndexExists, send, mbind, M_bind, mret, M_ret. simpl.
  destruct (Do (client c) (wire w) (IndicesExistsRequest [index])) as [err|res];
    simpl; [cases_done|].
  destruct (Z.eqb_spec (StatusCode res) 404) as [H404|H404]; simpl;
    [cases_done|].
  destruct (IsError res) eqn:Herr; simpl; cases_done.
Qed.

(** ** Bulk indexing *)

(** C3: for every index name, [BulkCreate] on an empty document list
    returns nil, and leaves the world as it was: no request is put on the
    wire and no map is changed. *)
Theorem BulkCreate_empty_noop (c : Client) (index : string) (w : world) :
  BulkCreate c index [] w = (Ret err_nil, w).
Proof. reflexivity. Qed.

(** One turn of the loop of [BulkCreate]. *)
Lemma bulk_lines_cons (index : string) (doc : mapref) (documents : list mapref)
    (buf : bytes) (w : world) :
  bulk_lines index (doc :: documents) buf w =
    let id := id_in_turn w [] doc in
    let w1 := after_turn w doc in
    match Marshal (bulk_action index id) with
    | inl err => (Ret (inl (Errorf ("failed to marshal bulk action: " +:+ err))), w1)
    | inr actionBytes =>
        match Marshal (snapshot_at w1 doc) with
        | inl err => (Ret (inl (Errorf ("failed to marshal document: " +:+ err))), w1)
        | inr docBytes =>
            bulk_lines index documents
              ((buf +:+ actionBytes +:+ newline) +:+ docBytes +:+ newline) w1
        end
    end.
Proof.
  unfold after_turn. destruct doc as [l|]; simpl;
    unfold mbind, M_bind, mret, M_ret, map_index, map_delete, snapshot; simpl.
  - destruct (heap_get w l !! "_id") as [id|] eqn:Hid; simpl;
      destruct (Marshal _); simpl; [done| |done|];
      by destruct (Marshal _).
  - destruct (Marshal _); simpl; [done|]. by destruct (Marshal _).
Qed.

(** The world after one turn: the document's map has lost ["_id"], every
    other map is as it was. *)
Lemma turn_heap (w : world) (doc : mapref) (l : loc) :
  heap_get (after_turn w doc) l =
  if decide (doc = Some l) then delete "_id" (heap_get w l) else heap_get w l.
Proof.
  unfold after_turn. destruct doc as [l0|]; simpl; [|by try case_decide].
  destruct (heap_get w l0 !! "_id") eqn:Hid.
  - case_decide; simplify_eq.
    + by rewrite heap_get_set.
    + rewrite heap_get_set_ne; [done|congruence].
  - case_decide; simplify_eq; [|done]. by rewrite delete_id.
Qed.

Lemma turn_wire (w : world) (doc : mapref) :
  wire (after_turn w doc) = wire w.
Proof.
  unfold after_turn. destruct doc; simpl; [|done].
  by destruct (heap_get _ _ !! _).
Qed.

(** The heap after a turn followed by the turns of [seen]. *)
Lemma heap_after_turns (w w1 w' : world) (doc : mapref) (seen : list mapref) :
  (∀ l, heap_get w1 l =
        if decide (doc = Some l) then delete "_id" (heap_get w l)
        else heap_get w l) →
  (∀ l, heap_get w' l =
        if decide (Some l ∈ seen) then delete "_id" (heap_get w1 l)
        else heap_get w1 l) →
  ∀ l, heap_get w' l =
       if decide (Some l ∈ doc :: seen) then delete "_id" (heap_get w l)
       else heap_get w l.
Proof.
  intros Hturn Hrest l. rewrite Hrest, Hturn.
  destruct (decide (doc = Some l)) as [->|Hne].
  - rewrite (decide_True (P := Some l ∈ Some l :: seen)) by (by left).
    case_decide; [by rewrite delete_delete_eq|done].
  - case_decide as Hin.
    + rewrite decide_True; [done|by right].
    + rewrite decide_False; [done|].
      intros Hcons. apply elem_of_cons in Hcons as [Heq|?]; [|done].
      by apply Hne.
Qed.

(** The loop never panics and puts nothing on the wire; whether it ends
    early or not, a map of the list has either lost ["_id"] or is as it was,
    and no other map has changed. *)
Lemma bulk_lines_frame (index : string) (documents : list mapref) :
  ∀ (buf : bytes) (w : world),
  ∃ r w', bulk_lines index documents buf w = (Ret r, w') ∧
    wire w' = wire w ∧
    ∀ l, heap_get w' l = heap_get w l ∨
         (Some l ∈ documents ∧ heap_get w' l = delete "_id" (heap_get w l)).
Proof.
  induction documents as [|doc documents IH]; intros buf w.
  { eexists _, w. split; [reflexivity|]. split; [done|]. by left. }
  rewrite bulk_lines_cons. cbv zeta.
  set (w1 := after_turn w doc).
  assert (Hheap : ∀ l, heap_get w1 l = heap_get w l ∨
            (Some l ∈ doc :: documents ∧ heap_get w1 l = delete "_id" (heap_get w l))).
  { intros l. subst w1. rewrite turn_heap. case_decide; [right|by left].
    split; [|done]. subst doc. by left. }
  assert (Hwire : wire w1 = wire w) by apply turn_wire.
  destruct (Marshal (bulk_action index _)) as [err|actionBytes].
  { by eexists _, w1. }
  destruct (Marshal (snapshot_at w1 doc)) as [err|docBytes].
  { by eexists _, w1. }
  destruct (IH ((buf +:+ actionBytes +:+ newline) +:+ docBytes +:+ newline) w1)
    as (r & w' & -> & Hw & Hh).
  exists r, w'. split; [done|]. split; [congruence|].
  intros l. destruct (Hh l) as [->|[Hin ->]].
  - apply Hheap.
  - right. split; [by right|].
    destruct (Hheap l) as [->|[_ ->]]; [done|]. by rewrite delete_delete_eq.
Qed.

(** The loop when it runs to its end: what it has written, and the heap it
    leaves. *)
Lemma bulk_lines_complete (index : string) (documents : list mapref) :
  ∀ (buf : bytes) (w : world) (body : bytes) (w' : world),
  bulk_lines index documents buf w = (Ret (inr body), w') →
  (∀ l, heap_get w' l =
        if decide (Some l ∈ documents) then delete "_id" (heap_get w l)
        else heap_get w l) ∧
  ∃ pairs, body = buf +:+ write_pairs pairs ∧
    length pairs = length documents ∧
    ∀ i doc, documents !! i = Some doc →
      ∃ actionBytes docBytes, pairs !! i = Some (actionBytes, docBytes) ∧
        Marshal (bulk_action index (id_in_turn w (take i documents) doc))
          = inr actionBytes ∧
        Marshal (document_sent w doc) = inr docBytes.
Proof.
  induction documents as [|doc documents IH]; intros buf w body w' Hrun.
  { simpl in Hrun. unfold mret, M_ret in Hrun. simplify_eq. split.
    - intros l. rewrite decide_False; [done|]. apply not_elem_of_nil.
    - exists []. simpl. by rewrite string_app_empty_r. }
  rewrite bulk_lines_cons in Hrun. cbv zeta in Hrun.
  set (w1 := after_turn w doc) in Hrun.
  assert (Hheap : ∀ l, heap_get w1 l =
            if decide (doc = Some l) then delete "_id" (heap_get w l)
            else heap_get w l) by (intros; apply turn_heap).
  destruct (Marshal (bulk_action index _)) as [err|actionBytes] eqn:Haction;
    [by simplify_eq|].
  destruct (Marshal (snapshot_at w1 doc)) as [err|docBytes] eqn:Hdoc;
    [by simplify_eq|].
  apply IH in Hrun as (Hh & pairs & -> & Hlen & Hpairs). split.
  - by apply (heap_after_turns w w1).
  - exists ((actionBytes, docBytes) :: pairs). split.
    { simpl. by rewrite !string_app_assoc. }
    split; [simpl; by rewrite Hlen|].
    intros [|i] doc' Hi; simpl in Hi.
    + simplify_eq. exists actionBytes, docBytes. split; [done|].
      split; [exact Haction|].
      rewrite <- Hdoc. destruct doc' as [l|]; simpl; [|done].
      by rewrite Hheap, decide_True.
    + destruct (Hpairs i doc' Hi) as (a & d & Hp & Ha & Hd).
      exists a, d. split; [done|]. split.
      * rewrite <- Ha. f_equal. f_equal.
        destruct doc' as [l|]; simpl; [|done].
        rewrite Hheap.
        repeat case_decide; simplify_eq; try done;
          rewrite ?lookup_delete_eq; try done; set_solver.
      * rewrite <- Hd. destruct doc' as [l|]; simpl; [|done].
        rewrite Hheap. case_decide; [by rewrite delete_delete_eq|done].
Qed.

(** A turn seen from the start of the list: the identifier a later document
    has in its turn, and the document lines, do not depend on whether the
    turn of [doc] is counted in the world or in the list of the documents
    seen. *)
Lemma id_in_turn_after (w : world) (doc doc' : mapref) (seen : list mapref) :
  id_in_turn (after_turn w doc) seen doc' = id_in_turn w (doc :: seen) doc'.
Proof.
  destruct doc' as [l|]; [|done]. unfold id_in_turn. rewrite turn_heap.
  destruct (decide (doc = Some l)) as [->|Hne].
  - rewrite (decide_True (P := Some l ∈ Some l :: seen)) by (by left).
    rewrite lookup_delete_eq. by case_decide.
  - case_decide as Hin.
    + rewrite decide_True; [done|by right].
    + rewrite decide_False; [done|].
      intros Hcons. apply elem_of_cons in Hcons as [Heq|?]; [|done].
      by apply Hne.
Qed.

Lemma document_sent_after (w : world) (doc doc' : mapref) :
  document_sent (after_turn w doc) doc' = document_sent w doc'.
Proof.
  destruct doc' as [l|]; [|done]. unfold document_sent. rewrite turn_heap.
  case_decide; [by rewrite delete_delete_eq|done].
Qed.

Lemma snapshot_after_turn (w : world) (doc : mapref) :
  snapshot_at (after_turn w doc) doc = document_sent w doc.
Proof.
  destruct doc as [l|]; [|done]. unfold snapshot_at, document_sent.
  by rewrite turn_heap, decide_True.
Qed.

Lemma lines_encode_after (index : string) (w : world) (doc doc' : mapref)
    (documents : list mapref) (i : nat) :
  lines_encode index w (doc :: documents) (S i) doc' →
  lines_encode index (after_turn w doc) documents i doc'.
Proof.
  unfold lines_encode. by rewrite id_in_turn_after, document_sent_after.
Qed.

Lemma line_fails_after (index : string) (w : world) (doc doc' : mapref)
    (documents : list mapref) (i : nat) (msg : string) :
  line_fails index w (doc :: documents) (S i) doc' msg →
  line_fails index (after_turn w doc) documents i doc' msg.
Proof.
  unfold line_fails. by rewrite id_in_turn_after, document_sent_after.
Qed.

(** The loop runs to its end when both lines of every document can be
    encoded. *)
Lemma bulk_lines_encoded (index : string) (documents : list mapref) :
  ∀ (buf : bytes) (w : world),
  (∀ i doc, documents !! i = Some doc → lines_encode index w documents i doc) →
  ∃ body w', bulk_lines index documents buf w = (Ret (inr body), w').
Proof.
  induction documents as [|doc documents IH]; intros buf w Hlines.
  { by eexists _, _. }
  rewrite bulk_lines_cons. cbv zeta.
  destruct (Hlines 0 doc eq_refl) as [[actionBytes Haction] [docBytes Hdoc]].
  change (take 0 (doc :: documents)) with (@nil mapref) in Haction.
  rewrite Haction, snapshot_after_turn, Hdoc.
  apply IH. intros i doc' Hi. apply lines_encode_after. by apply Hlines.
Qed.

(** The loop ends at the first document with a line that cannot be
    encoded, with the error for that line: the documents up to that one
    have had their turn, the others have not. *)
Lemma bulk_lines_stops (index : string) (documents : list mapref) :
  ∀ (n : nat) (buf : bytes) (w : world) (doc : mapref) (msg : string),
  documents !! n = Some doc →
  (∀ i doc', i < n → documents !! i = Some doc' →
     lines_encode index w documents i doc') →
  line_fails index w documents n doc msg →
  ∃ w', bulk_lines index documents buf w = (Ret (inl (Errorf msg)), w') ∧
    ∀ l, heap_get w' l =
         if decide (Some l ∈ take (S n) documents)
         then delete "_id" (heap_get w l)
         else heap_get w l.
Proof.
  induction documents as [|doc0 documents IH]; intros n buf w doc msg Hn Hbefore Hfails.
  { done. }
  rewrite bulk_lines_cons. cbv zeta.
  set (w1 := after_turn w doc0).
  assert (Hheap : ∀ l, heap_get w1 l =
            if decide (doc0 = Some l) then delete "_id" (heap_get w l)
            else heap_get w l) by (intros; apply turn_heap).
  destruct n as [|n].
  - simpl in Hn. simplify_eq.
    assert (Hnow : ∀ l, heap_get w1 l =
              if decide (Some l ∈ take 1 (doc :: documents))
              then delete "_id" (heap_get w l) else heap_get w l).
    { apply (heap_after_turns w w1); [done|].
      intros l. rewrite decide_False; [done|]. apply not_elem_of_nil. }
    unfold line_fails in Hfails.
    change (take 0 (doc :: documents)) with (@nil mapref) in Hfails.
    destruct Hfails as [(err & Haction & ->)|(actionBytes & err & Haction & Hdoc & ->)].
    + rewrite Haction. by exists w1.
    + rewrite Haction. subst w1. rewrite snapshot_after_turn, Hdoc.
      by eexists.
  - simpl in Hn.
    destruct (Hbefore 0 doc0) as [[actionBytes Haction] [docBytes Hdoc]];
      [lia|done|].
    change (take 0 (doc0 :: documents)) with (@nil mapref) in Haction.
    rewrite Haction. subst w1. rewrite snapshot_after_turn, Hdoc.
    destruct (IH n ((buf +:+ actionBytes +:+ newline) +:+ docBytes +:+ newline)
                (after_turn w doc0) doc msg Hn) as (w' & Hrun & Hh).
    { intros i doc' Hi Hdoc'. apply lines_encode_after. apply Hbefore; [lia|done]. }
    { by apply line_fails_after. }
    exists w'. split; [done|].
    by apply (heap_after_turns w (after_turn w doc0)).
Qed.

(** Either both lines of every document can be encoded, or there is a
    first document with a line that cannot. *)
Lemma first_failing_line (index : string) (documents : list mapref) (w : world) :
  (∀ i doc, documents !! i = Some doc → lines_encode index w documents i doc) ∨
  (∃ n doc msg, documents !! n = Some doc ∧
     (∀ i doc', i < n → documents !! i = Some doc' →
        lines_encode index w documents i doc') ∧
     line_fails index w documents n doc msg).
Proof.
  assert (Hupto : ∀ k,
    (∀ i doc, i < k → documents !! i = Some doc →
       lines_encode index w documents i doc) ∨
    (∃ n doc msg, documents !! n = Some doc ∧
       (∀ i doc', i < n → documents !! i = Some doc' →
          lines_encode index w documents i doc') ∧
       line_fails index w documents n doc msg)).
  { induction k as [|k [IH|IH]]; [left; intros; lia| |by right].
    destruct (documents !! k) as [doc|] eqn:Hk.
    - destruct (Marshal (bulk_action index (id_in_turn w (take k documents) doc)))
        as [err|actionBytes] eqn:Haction.
      { right. exists k, doc, ("failed to marshal bulk action: " +:+ err).
        split; [done|]. split; [done|]. left. by exists err. }
      destruct (Marshal (document_sent w doc)) as [err|docBytes] eqn:Hdoc.
      { right. exists k, doc, ("failed to marshal document: " +:+ err).
        split; [done|]. split; [done|]. right. by exists actionBytes, err. }
      left. intros i doc' Hi Hdoc'.
      destruct (decide (i = k)) as [->|Hne]; [|apply IH; [lia|done]].
      simplify_eq. split; by eexists.
    - left. intros i doc' Hi Hdoc'.
      destruct (decide (i = k)) as [->|Hne]; [congruence|apply IH; [lia|done]]. }
  destruct (Hupto (length documents)) as [Hall|Hfirst]; [left|by right].
  intros i doc Hi. apply Hall; [|done]. by eapply lookup_lt_Some.
Qed.

(** The two loops over a bulk response collect the described errors. *)
Lemma item_errors_described (errorMessages : list string)
    (item : gmap string BulkItem) :
  item_errors errorMessages item =
    errorMessages ++
    (error_message <$>
       filter (λ op, Type_ (bi_Error op) ≠ EmptyString) ((range_order item).*2)).
Proof.
  unfold item_errors. generalize (range_order item). intros entries.
  revert errorMessages.
  induction entries as [|entry entries IH]; intros errorMessages; simpl.
  { by rewrite app_nil_r. }
  rewrite IH. rewrite filter_cons. case_decide as Htype.
  - rewrite decide_False by (by intros ?). done.
  - rewrite decide_True by done. simpl. by rewrite <- app_assoc.
Qed.

Lemma bulk_errors_described (items : list (gmap string BulkItem)) :
  bulk_errors items = described_errors items.
Proof.
  unfold bulk_errors, described_errors.
  assert (Hgen : ∀ acc, foldl item_errors acc items =
    acc ++ (item ← items;
            error_message <$>
              filter (λ op, Type_ (bi_Error op) ≠ EmptyString)
                     ((range_order item).*2))); [|by rewrite Hgen].
  induction items as [|item items IH]; intros acc; simpl.
  { by rewrite app_nil_r. }
  rewrite IH, item_errors_described. by rewrite <- app_assoc.
Qed.

(** There is an error description iff some operation of some item has an
    error type. *)
Lemma described_errors_nonempty (items : list (gmap string BulkItem)) :
  described_errors items ≠ [] ↔
  ∃ item key op, item ∈ items ∧ item !! key = Some op ∧
                 Type_ (bi_Error op) ≠ EmptyString.
Proof.
  unfold described_errors. split.
  - intros Hne.
    destruct (item ← items; _) as [|msg msgs] eqn:Hmsgs; [done|].
    assert (Hin : msg ∈ (item ← items;
              error_message <$>
                filter (λ op, Type_ (bi_Error op) ≠ EmptyString)
                       ((range_order item).*2))) by (rewrite Hmsgs; by left).
    apply list_elem_of_bind in Hin as (item & Hmsg & Hitem).
    apply list_elem_of_fmap in Hmsg as (op & _ & Hop).
    apply list_elem_of_filter in Hop as [Htype Hop].
    apply list_elem_of_fmap in Hop as ([key op'] & -> & Hentry).
    rewrite range_order_perm in Hentry.
    apply elem_of_map_to_list in Hentry. by exists item, key, op'.
  - intros (item & key & op & Hitem & Hop & Htype) Hnil.
    assert (Hin : error_message op ∈ (item ← items;
              error_message <$>
                filter (λ op, Type_ (bi_Error op) ≠ EmptyString)
                       ((range_order item).*2))).
    { apply list_elem_of_bind. exists item. split; [|done].
      apply list_elem_of_fmap. exists op. split; [done|].
      apply list_elem_of_filter. split; [done|].
      apply list_elem_of_fmap. exists (key, op). split; [done|].
      rewrite range_order_perm. by apply elem_of_map_to_list. }
    rewrite Hnil in Hin. by apply not_elem_of_nil in Hin.
Qed.

(** What [BulkCreate] does once the body is written: it sends the request
    and returns. *)
Lemma BulkCreate_complete (c : Client) (index : string)
    (documents : list mapref) (w w1 : world) (body : bytes) :
  documents ≠ [] →
  bulk_lines index documents EmptyString w = (Ret (inr body), w1) →
  ∃ err, BulkCreate c index documents w =
           (Ret err, wire_add (BulkRequest body "true") w1).
Proof.
  intros Hne Hlines.
  unfold BulkCreate. destruct documents as [|doc documents]; [done|].
  change (length (doc :: documents) =? 0)%nat with false. cbv iota.
  unfold mbind, M_bind. rewrite Hlines.
  unfold send, parseResponse, mret, M_ret.
  destruct (Do _ _ _) as [?|res]; [by eexists|].
  destruct (IsError res); [by eexists|].
  destruct (Decode_BulkResponse _) as [?|response]; [by eexists|].
  destruct (Errors response); [|by eexists].
  cbv zeta. by destruct (0 <? _)%nat; eexists.
Qed.

(** C1 (as amended): when [BulkCreate] on a non-empty list has encoded
    every line, the server has answered the bulk request with a non-error
    status and a body that decodes, and the response's [errors] flag is set,
    the call fails iff some operation of some item carries an error type;
    the error is then "bulk operation had errors: " followed by the
    descriptions ["type: reason"] of those operations, in the order of the
    response, joined by "; ".  With the flag set and no error type in any
    item the call returns nil. *)
Theorem BulkCreate_reports_item_errors
    (c : Client) (index : string) (documents : list mapref) (w w1 : world)
    (body : bytes) (res : Response) (response : BulkResponse) :
  documents ≠ [] →
  bulk_lines index documents EmptyString w = (Ret (inr body), w1) →
  Do (client c) (wire w) (BulkRequest body "true") = inr res →
  IsError res = false →
  Decode_BulkResponse (Body res) = inr response →
  Errors response = true →
  let messages := described_errors (Items response) in
  (messages ≠ [] ↔
     ∃ item key op, item ∈ Items response ∧ item !! key = Some op ∧
                    Type_ (bi_Error op) ≠ EmptyString) ∧
  BulkCreate c index documents w =
    (Ret (if decide (messages = []) then err_nil
          else Errorf ("bulk operation had errors: " +:+
                       String.concat "; " messages)),
     wire_add (BulkRequest body "true") w1).
Proof.
  intros Hne Hlines Hdo Herr Hdec Hflag messages.
  split; [apply described_errors_nonempty|].
  destruct (bulk_lines_frame index documents EmptyString w)
    as (r & w1' & Hlines' & Hwire & _).
  rewrite Hlines in Hlines'. simplify_eq.
  unfold BulkCreate. destruct documents as [|doc documents]; [done|].
  change (length (doc :: documents) =? 0)%nat with false. cbv iota.
  unfold mbind, M_bind. rewrite Hlines.
  unfold send, parseResponse, mret, M_ret. rewrite Hwire, Hdo, Herr, Hdec, Hflag.
  rewrite bulk_errors_described. fold messages.
  destruct messages as [|msg msgs]; [done|]. by rewrite decide_False.
Qed.

(** C9 (as amended): [BulkCreate] always returns, and whatever happens the
    only change it makes to a map is to delete ["_id"] from a map of the
    list.  What it does is decided by the encoder alone: either both lines
    of every document can be encoded, or there is a first document with a
    line that cannot.  When every line encodes, the bulk request is sent,
    and afterwards every map of the list has lost ["_id"] and is otherwise
    as before; the body sent is one action line and one document line per
    list entry, the document line encoding the map without ["_id"], and the
    action line of the first occurrence of a map that had an identifier
    carrying it under ["_id"] next to ["_index"].  When the first line that
    cannot be encoded belongs to the document at position [n], the call
    returns the error for that line without sending anything; the maps at
    positions up to and including [n] have lost ["_id"], the maps listed
    only after it are as before and keep theirs. *)
Theorem BulkCreate_moves_ids
    (c : Client) (index : string) (documents : list mapref) (w : world) :
  (∃ err w',
     BulkCreate c index documents w = (Ret err, w') ∧
     ∀ l, heap_get w' l = heap_get w l ∨
          (Some l ∈ documents ∧ heap_get w' l = delete "_id" (heap_get w l))) ∧
  ((∀ i doc, documents !! i = Some doc → lines_encode index w documents i doc) ∨
   (∃ n doc msg, documents !! n = Some doc ∧
      (∀ i doc', i < n → documents !! i = Some doc' →
         lines_encode index w documents i doc') ∧
      line_fails index w documents n doc msg)) ∧
  (documents ≠ [] →
   (∀ i doc, documents !! i = Some doc → lines_encode index w documents i doc) →
   ∃ err w' pairs,
     BulkCreate c index documents w = (Ret err, w') ∧
     wire w' = wire w ++ [BulkRequest (write_pairs pairs) "true"] ∧
     (∀ l, Some l ∈ documents →
        heap_get w' l = delete "_id" (heap_get w l) ∧
        heap_get w' l !! "_id" = None) ∧
     (∀ l, Some l ∉ documents → heap_get w' l = heap_get w l) ∧
     length pairs = length documents ∧
     (∀ i doc, documents !! i = Some doc →
        ∃ actionBytes docBytes,
          pairs !! i = Some (actionBytes, docBytes) ∧
          Marshal (bulk_action index (id_in_turn w (take i documents) doc))
            = inr actionBytes ∧
          Marshal (document_sent w doc) = inr docBytes) ∧
     (∀ i l id, documents !! i = Some (Some l) →
        Some l ∉ take i documents →
        heap_get w l !! "_id" = Some id →
        ∃ actionBytes docBytes,
          pairs !! i = Some (actionBytes, docBytes) ∧
          Marshal (VMap {[ "index" :=
                     VMap (<[ "_id" := id ]> {[ "_index" := VString index ]}) ]})
            = inr actionBytes ∧
          Marshal (VMap (delete "_id" (heap_get w l))) = inr docBytes)) ∧
  (∀ n doc msg,
     documents !! n = Some doc →
     (∀ i doc', i < n → documents !! i = Some doc' →
        lines_encode index w documents i doc') →
     line_fails index w documents n doc msg →
     ∃ w',
       BulkCreate c index documents w = (Ret (Errorf msg), w') ∧
       wire w' = wire w ∧
       (∀ l, Some l ∈ take (S n) documents →
          heap_get w' l = delete "_id" (heap_get w l) ∧
          heap_get w' l !! "_id" = None) ∧
       (∀ l, Some l ∉ take (S n) documents → heap_get w' l = heap_get w l)).
Proof.
  split; [|split; [apply first_failing_line|split]].
  - destruct documents as [|doc documents].
    { exists err_nil, w. split; [done|]. by left. }
    destruct (bulk_lines_frame index (doc :: documents) EmptyString w)
      as (r & w1 & Hlines & Hwire & Hheap).
    destruct r as [err|body].
    + exists err, w1. split; [|done]. unfold BulkCreate.
      change (length (doc :: documents) =? 0)%nat with false. cbv iota.
      unfold mbind, M_bind. by rewrite Hlines.
    + assert (Hne : doc :: documents ≠ []) by done.
      destruct (BulkCreate_complete c _ _ _ _ _ Hne Hlines) as (err & ->).
      by eexists _, _.
  - intros Hne Hencode.
    destruct (bulk_lines_encoded index documents EmptyString w Hencode)
      as (body & w1 & Hlines).
    destruct (bulk_lines_frame index documents EmptyString w)
      as (r & w1' & Hlines' & Hwire & _).
    rewrite Hlines in Hlines'. simplify_eq.
    destruct (bulk_lines_complete _ _ _ _ _ _ Hlines)
      as (Hheap & pairs & Hbody & Hlen & Hpairs).
    destruct (BulkCreate_complete c _ _ _ _ _ Hne Hlines) as (err & Hrun).
    exists err, (wire_add (BulkRequest body "true") w1'), pairs.
    split; [done|].
    split; [simpl; by rewrite Hwire, Hbody|].
    split.
    { intros l Hin. change (heap_get (wire_add _ w1') l) with (heap_get w1' l).
      rewrite Hheap, decide_True by done. split; [done|apply lookup_delete_eq]. }
    split.
    { intros l Hin. change (heap_get (wire_add _ w1') l) with (heap_get w1' l).
      by rewrite Hheap, decide_False. }
    split; [done|]. split; [done|].
    intros i l id Hi Hfirst Hid.
    destruct (Hpairs i (Some l) Hi) as (a & d & Hp & Ha & Hd).
    exists a, d. split; [done|]. split; [|done].
    rewrite <- Ha. unfold id_in_turn. rewrite decide_False by done.
    by rewrite Hid.
  - intros n doc msg Hn Hbefore Hfails.
    destruct (bulk_lines_stops index documents n EmptyString w doc msg
                Hn Hbefore Hfails) as (w1 & Hlines & Hheap).
    destruct (bulk_lines_frame index documents EmptyString w)
      as (r & w1' & Hlines' & Hwire & _).
    rewrite Hlines in Hlines'. simplify_eq.
    exists w1'. split.
    { unfold BulkCreate. destruct documents as [|doc0 documents]; [done|].
      change (length (doc0 :: documents) =? 0)%nat with false. cbv iota.
      unfold mbind, M_bind. by rewrite Hlines. }
    split; [done|]. split.
    + intros l Hin. rewrite Hheap, decide_True by done.
      split; [done|apply lookup_delete_eq].
    + intros l Hin. by rewrite Hheap, decide_False.
Qed.

(** ** Query builders *)

(** C4: for every field and pair of bounds, [RangeQuery] returns a new map
    [{"query": {"range": {field: cond}}}] whose range condition [cond] holds
    exactly the bounds that are not nil: ["gte"] is bound (to [gte]) iff
    [gte] is not nil, ["lte"] is bound (to [lte]) iff [lte] is not nil, and
    [cond] has no other key; with neither bound it is empty. *)
Theorem RangeQuery_present_bounds (field : string) (gte lte : value) (w : world) :
  ∃ l cond,
    RangeQuery field gte lte w =
      (Ret (Some l),
       heap_set l {[ "query" := VMap {[ "range" := VMap {[ field := VMap cond ]} ]} ]} w) ∧
    heap w !! l = None ∧
    cond !! "gte" = (if not_nil gte then Some gte else None) ∧
    cond !! "lte" = (if not_nil lte then Some lte else None) ∧
    dom cond = (if not_nil gte then {[ "gte" ]} else ∅) ∪
               (if not_nil lte then {[ "lte" ]} else ∅) ∧
    (if not_nil gte || not_nil lte then True else cond = ∅).
Proof.
  destruct (make_map_fresh
    {[ "query" := VMap {[ "range" := VMap {[ field := VMap (rangeCondition gte lte) ]} ]} ]} w)
    as (l & Hrun & Hfresh).
  exists l, (rangeCondition gte lte). split; [exact Hrun|]. split; [exact Hfresh|].
  unfold rangeCondition.
  destruct (not_nil gte), (not_nil lte); simpl;
    rewrite ?dom_insert_L, ?dom_empty_L; repeat split;
    try (by simplify_map_eq); set_solver.
Qed.

(** C5: for all three clause lists, [BoolQuery] returns a new map
    [{"query": {"bool": b}}] in which ["must"], ["should"] and ["must_not"]
    are bound iff the list of that name is non-empty, and then to that list
    of clauses; [b] has no other key, so with three empty lists it is
    empty. *)
Theorem BoolQuery_nonempty_clauses (must should mustNot : list mapref) (w : world) :
  ∃ l b,
    BoolQuery must should mustNot w =
      (Ret (Some l), heap_set l {[ "query" := VMap {[ "bool" := VMap b ]} ]} w) ∧
    heap w !! l = None ∧
    (is_Some (b !! "must") ↔ must ≠ []) ∧
    (is_Some (b !! "should") ↔ should ≠ []) ∧
    (is_Some (b !! "must_not") ↔ mustNot ≠ []) ∧
    b !! "must" =
      (if decide (must = []) then None else Some (VSlice (snapshot_at w <$> must))) ∧
    b !! "should" =
      (if decide (should = []) then None else Some (VSlice (snapshot_at w <$> should))) ∧
    b !! "must_not" =
      (if decide (mustNot = []) then None else Some (VSlice (snapshot_at w <$> mustNot))) ∧
    dom b ⊆ {[ "must"; "should"; "must_not" ]} ∧
    (if decide (must = [] ∧ should = [] ∧ mustNot = []) then b = ∅ else b ≠ ∅).
Proof.
  set (b := boolQuery (snapshot_at w <$> must) (snapshot_at w <$> should)
                      (snapshot_at w <$> mustNot)).
  destruct (make_map_fresh {[ "query" := VMap {[ "bool" := VMap b ]} ]} w)
    as (l & Hrun & Hfresh).
  exists l, b. split; [exact Hrun|]. split; [exact Hfresh|].
  subst b. unfold boolQuery. rewrite !length_fmap.
  destruct must as [|m1 must], should as [|s1 should], mustNot as [|n1 mustNot];
    simpl; repeat case_decide; try naive_solver;
    rewrite ?dom_insert_L, ?dom_empty_L;
    repeat split; intros; simplify_map_eq; try done; try set_solver;
    try (by eexists);
    try (by intros Hb; apply (f_equal (λ m : gmap string value, m !! "must")) in Hb;
            simplify_map_eq);
    try (by intros Hb; apply (f_equal (λ m : gmap string value, m !! "should")) in Hb;
            simplify_map_eq);
    try (by intros Hb; apply (f_equal (λ m : gmap string value, m !! "must_not")) in Hb;
            simplify_map_eq).
Qed.

(** What a modifier does: given a non-nil query, the same reference comes
    back and the map behind it has the one key more; given a nil map, the
    write panics. *)
Lemma WithSize_run (query : mapref) (size : Z) (w : world) :
  WithSize query size w =
    match query with
    | Some l => (Ret query, heap_set l (<[ "size" := VInt size ]> (heap_get w l)) w)
    | None => (Panic "assignment to entry in nil map", w)
    end.
Proof. by destruct query. Qed.

Lemma WithFrom_run (query : mapref) (from : Z) (w : world) :
  WithFrom query from w =
    match query with
    | Some l => (Ret query, heap_set l (<[ "from" := VInt from ]> (heap_get w l)) w)
    | None => (Panic "assignment to entry in nil map", w)
    end.
Proof. by destruct query. Qed.

Lemma WithSort_run (query : mapref) (field order : string) (w : world) :
  WithSort query field order w =
    match query with
    | Some l =>
        (Ret query,
         heap_set l (<[ "sort" := VSlice [ VMap {[ field := VMap {[ "order" := VString order ]} ]} ] ]>
                       (heap_get w l)) w)
    | None => (Panic "assignment to entry in nil map", w)
    end.
Proof. by destruct query. Qed.

(** C6: [WithSize(WithSort(MatchQuery("category", "tutorial"), "views",
    "desc"), 10)] returns one new map that holds, side by side, the match
    leaf for category = tutorial under ["query"], a ["sort"] list with the
    single entry [{"views": {"order": "desc"}}], and ["size"] = 10, and no
    other key.  Each modifier writes its key into the map behind the
    reference it is given and returns that same reference (on a nil map
    the write panics and nothing is returned). *)
Theorem modifiers_compose_on_match (w : world) :
  (∃ l w',
     (q ← MatchQuery "category" "tutorial";
      q ← WithSort q "views" "desc";
      WithSize q 10) w = (Ret (Some l), w') ∧
     heap w !! l = None ∧
     heap_get w' l !! "query" =
       Some (VMap {[ "match" := VMap {[ "category" := VString "tutorial" ]} ]}) ∧
     heap_get w' l !! "sort" =
       Some (VSlice [ VMap {[ "views" := VMap {[ "order" := VString "desc" ]} ]} ]) ∧
     heap_get w' l !! "size" = Some (VInt 10) ∧
     dom (heap_get w' l) = {[ "query"; "sort"; "size" ]} ∧
     wire w' = wire w) ∧
  (∀ query size w0,
     WithSize query size w0 =
       match query with
       | Some l =>
           (Ret query, heap_set l (<[ "size" := VInt size ]> (heap_get w0 l)) w0)
       | None => (Panic "assignment to entry in nil map", w0)
       end) ∧
  (∀ query from w0,
     WithFrom query from w0 =
       match query with
       | Some l =>
           (Ret query, heap_set l (<[ "from" := VInt from ]> (heap_get w0 l)) w0)
       | None => (Panic "assignment to entry in nil map", w0)
       end) ∧
  (∀ query field order w0,
     WithSort query field order w0 =
       match query with
       | Some l =>
           (Ret query,
            heap_set l (<[ "sort" := VSlice [ VMap {[ field := VMap {[ "order" := VString order ]} ]} ] ]>
                          (heap_get w0 l)) w0)
       | None => (Panic "assignment to entry in nil map", w0)
       end).
Proof.
  split; [|auto using WithSize_run, WithFrom_run, WithSort_run].
  destruct (make_map_fresh
    {[ "query" := VMap {[ "match" := VMap {[ "category" := VString "tutorial" ]} ]} ]} w)
    as (l & Hrun & Hfresh).
  exists l. eexists. split.
  { unfold mbind, M_bind, MatchQuery. rewrite Hrun.
    rewrite WithSort_run, WithSize_run. reflexivity. }
  rewrite !heap_get_set. split; [exact Hfresh|].
  split_and!; by simplify_map_eq.
Qed.

(** C10: [MatchMapQuery] always binds ["must"] in its bool query, to one
    match leaf per entry of the field-value map (in the order the [range]
    visits them), so for an empty or nil map ["must"] is bound to the empty
    list; [BoolQuery] with three empty lists returns a bool query with no
    key. *)
Theorem MatchMapQuery_always_has_must (fieldValues : mapref) (w : world) :
  let entries := match fieldValues with
                 | Some l => map_to_list (heap_get w l)
                 | None => []
                 end in
  (∃ l mustClauses,
     MatchMapQuery fieldValues w =
       (Ret (Some l),
        heap_set l {[ "query" := VMap {[ "bool" :=
                      VMap {[ "must" := VSlice mustClauses ]} ]} ]} w) ∧
     heap w !! l = None ∧
     mustClauses ≡ₚ
       (λ entry, VMap {[ "match" := VMap {[ entry.1 := entry.2 ]} ]}) <$> entries ∧
     length mustClauses = length entries ∧
     match entries with [] => mustClauses = [] | _ => mustClauses ≠ [] end) ∧
  (∃ l,
     BoolQuery [] [] [] w =
       (Ret (Some l), heap_set l {[ "query" := VMap {[ "bool" := VMap ∅ ]} ]} w)).
Proof.
  cbv zeta. split.
  - set (visited := match fieldValues with
                    | Some l => range_order (heap_get w l)
                    | None => []
                    end).
    assert (Hperm : visited ≡ₚ match fieldValues with
                               | Some l => map_to_list (heap_get w l)
                               | None => []
                               end).
    { subst visited. destruct fieldValues; [apply range_order_perm|done]. }
    assert (Hfold : ∀ es acc,
      foldl append_match acc es =
        (acc ++ ((λ entry, VMap {[ "match" := VMap {[ entry.1 := entry.2 ]} ]}) <$> es))%list).
    { induction es as [|e es IH]; intros acc; simpl.
      - by rewrite app_nil_r.
      - rewrite IH. unfold append_match. by rewrite <- app_assoc. }
    destruct (make_map_fresh
      {[ "query" := VMap {[ "bool" := VMap {[ "must" :=
           VSlice (foldl append_match [] visited) ]} ]} ]} w) as (l & Hrun & Hfresh).
    exists l, (foldl append_match [] visited).
    split; [exact Hrun|]. split; [exact Hfresh|].
    rewrite Hfold. simpl. split; [by rewrite Hperm|].
    split; [by rewrite length_fmap, Hperm|].
    destruct (match fieldValues with
              | Some l0 => map_to_list (heap_get w l0)
              | None => []
              end) as [|e es] eqn:He.
    + apply Permutation_nil_r in Hperm. by rewrite Hperm.
    + intros Hnil. apply fmap_nil_inv in Hnil. rewrite Hnil in Hperm.
      by apply Permutation_nil_cons in Hperm.
  - destruct (make_map_fresh {[ "query" := VMap {[ "bool" := VMap ∅ ]} ]} w)
      as (l & Hrun & _).
    exists l. exact Hrun.
Qed.

(** ** Search *)

(** The loop over the hits returns iff every hit has a source map, and then
    appends, hit by hit, the source with the two reserved keys written. *)
Lemma search_results_Ret (hits : list Hit) (acc results : list (gmap string value)) :
  search_results hits acc = Ret results ↔
  ∃ docs, results = (acc ++ docs)%list ∧
    Forall2 (λ hit doc, ∃ source, hit_Source hit = Some source ∧
               doc = <[ "_score" := VFloat (hit_Score hit) ]>
                       (<[ "_id" := VString (hit_ID hit) ]> source)) hits docs.
Proof.
  revert acc. induction hits as [|hit hits IH]; intros acc; simpl.
  - split.
    + intros [= <-]. exists []. split; [by rewrite app_nil_r|constructor].
    + intros (docs & -> & Hall). inversion Hall. by rewrite app_nil_r.
  - destruct (hit_Source hit) as [source|] eqn:Hsrc.
    + rewrite IH. split.
      * intros (docs & -> & Hall). eexists (_ :: docs).
        split; [by rewrite <- app_assoc|]. constructor; eauto.
      * intros (docs & -> & Hall). inversion Hall as [|? doc ? docs' Hd Hall']; subst.
        destruct Hd as (source' & Hs & ->). simplify_eq.
        exists docs'. split; [by rewrite <- app_assoc|done].
    + split; [done|]. intros (docs & _ & Hall).
      inversion Hall as [|? doc ? docs' Hd Hall']; subst.
      destruct Hd as (source' & Hs & _). congruence.
Qed.

(** C8: a call of [SearchDocuments] that succeeds (nil error) has sent the
    encoded query, got a non-error response and decoded it; its result list
    is as long as the response's hit list, and its i-th document is the
    i-th hit's source map with the hit's identifier written under ["_id"]
    and its score under ["_score"].  Conversely, whenever the query encodes,
    the response is not an error status and decodes, and every hit carries
    a source map, the call succeeds. *)
Theorem SearchDocuments_annotates_hits
    (c : Client) (index : string) (query : mapref) (w : world) :
  (∀ results w',
     SearchDocuments c index query w = (Ret (results, err_nil), w') →
     ∃ body res response,
       Marshal (snapshot_at w query) = inr body ∧
       Do (client c) (wire w) (SearchRequest [index] body) = inr res ∧
       IsError res = false ∧
       Decode_SearchResponse (Body res) = inr response ∧
       w' = wire_add (SearchRequest [index] body) w ∧
       length results = length (sr_Hits response) ∧
       ∀ i hit, sr_Hits response !! i = Some hit →
         ∃ source, hit_Source hit = Some source ∧
           results !! i =
             Some (<[ "_score" := VFloat (hit_Score hit) ]>
                     (<[ "_id" := VString (hit_ID hit) ]> source))) ∧
  (∀ body res response,
     Marshal (snapshot_at w query) = inr body →
     Do (client c) (wire w) (SearchRequest [index] body) = inr res →
     IsError res = false →
     Decode_SearchResponse (Body res) = inr response →
     (∀ hit, hit ∈ sr_Hits response → is_Some (hit_Source hit)) →
     ∃ results,
       SearchDocuments c index query w =
         (Ret (results, err_nil), wire_add (SearchRequest [index] body) w)).
Proof.
  unfold SearchDocuments, snapshot, send, parseResponse, run,
    mbind, M_bind, mret, M_ret. simpl. split.
  - intros results w' Hrun.
    destruct (Marshal (snapshot_at w query)) as [?|body] eqn:Hbody;
      [by simplify_eq|].
    simpl in Hrun.
    destruct (Do (client c) (wire w) (SearchRequest [index] body)) as [?|res] eqn:Hdo;
      [by simplify_eq|].
    destruct (IsError res) eqn:Herr; [by simplify_eq|].
    destruct (Decode_SearchResponse (Body res)) as [?|response] eqn:Hdec;
      [by simplify_eq|].
    destruct (search_results (sr_Hits response) []) as [docs|?] eqn:Hloop;
      [|by simplify_eq].
    simplify_eq. apply search_results_Ret in Hloop as (docs' & -> & Hall).
    exists body, res, response. split_and!; try done.
    + simpl. symmetry. by eapply Forall2_length.
    + intros i hit Hi. simpl.
      destruct (Forall2_lookup_l _ _ _ _ _ Hall Hi) as (doc & Hdoc & source & Hs & ->).
      eauto.
  - intros body res response -> -> -> -> Hsources. simpl.
    destruct (search_results (sr_Hits response) []) as [docs|msg] eqn:Hloop;
      [by eexists|].
    exfalso. revert Hloop. generalize (@nil (gmap string value)).
    induction (sr_Hits response) as [|hit hits IH]; intros acc; simpl; [done|].
    destruct (Hsources hit) as [source ->]; [by left|].
    apply IH. intros hit' Hin. apply Hsources. by right.
Qed.

End properties.

(** * Further properties *)

Section further_properties.
Context `{!Externals, !ClusterExternals}.

(** ** Construction *)

(** X1: [NewClient] returns a handle or an error, never both and never
    neither; and the client [GetClient] gives for a returned handle is the
    one the wrapped constructor built for the addresses and credentials of
    the configuration. *)
Theorem NewClient_handle_xor_error (config : Config) :
  ((NewClient config).1 = None ↔ (NewClient config).2 ≠ err_nil) ∧
  (∀ c, (NewClient config).1 = Some c →
     ∃ cfg,
       os_Addresses cfg = Addresses config ∧
       os_Username cfg = Username config ∧
       os_Password cfg = Password config ∧
       opensearch_NewClient cfg = inr (GetClient c)).
Proof.
  destruct (Addresses config) as [|a l] eqn:Ha.
  { unfold NewClient. rewrite Ha. simpl. split; [done|]. intros c [=]. }
  destruct (NewClient_nonempty config) as (cfg & H1 & H2 & H3 & _ & Hrun).
  { by rewrite Ha. }
  rewrite Hrun, <- Ha. destruct (opensearch_NewClient cfg) as [err|cl] eqn:Hcl; simpl.
  - split; [done|]. intros c [=].
  - split; [split; [done|by intros []]|].
    intros c [= <-]. by exists cfg.
Qed.

(** ** Query builders and modifiers *)

(** X2: the builders without a map argument return a map that was not in
    the heap, and leave the heap's maps and the wire as they were.  So two
    queries built one after the other are different maps: a size written
    into the second does not show in the first. *)
Theorem builders_return_new_maps (w : world) :
  (∀ field text v,
     ∀ builder, builder ∈ [ MatchAllQuery; MatchQuery field text;
                            NotMatchQuery field text; TermQuery field v;
                            NotTermQuery field v ] →
     ∃ l content, builder w = (Ret (Some l), heap_set l content w) ∧
                  heap w !! l = None) ∧
  (∀ size,
     ∃ l1 l2 w',
       (q1 ← MatchAllQuery;
        q2 ← MatchAllQuery;
        WithSize q2 size;;
        mret (q1, q2)) w = (Ret (Some l1, Some l2), w') ∧
       l1 ≠ l2 ∧
       heap_get w' l1 = {[ "query" := VMap {[ "match_all" := VMap ∅ ]} ]} ∧
       heap_get w' l2 =
         {[ "query" := VMap {[ "match_all" := VMap ∅ ]}; "size" := VInt size ]}).
Proof.
  split.
  - intros field text v builder Hin.
    repeat (apply elem_of_cons in Hin as [->|Hin];
            [eexists (fresh (dom (heap w))), _; split;
             [reflexivity|apply not_elem_of_dom, is_fresh]|]).
    by apply not_elem_of_nil in Hin.
  - intros size.
    destruct (make_map_fresh {[ "query" := VMap {[ "match_all" := VMap ∅ ]} ]} w)
      as (l1 & Hrun1 & Hfresh1).
    destruct (make_map_fresh {[ "query" := VMap {[ "match_all" := VMap ∅ ]} ]}
                (heap_set l1 {[ "query" := VMap {[ "match_all" := VMap ∅ ]} ]} w))
      as (l2 & Hrun2 & Hfresh2).
    assert (Hne : l1 ≠ l2).
    { intros <-. simpl in Hfresh2. by rewrite lookup_insert_eq in Hfresh2. }
    exists l1, l2. eexists. split.
    { unfold mbind, M_bind, MatchAllQuery. rewrite Hrun1, Hrun2.
      rewrite WithSize_run. reflexivity. }
    split; [done|]. split.
    + assert (l2 ≠ l1) by (by intros ->).
      do 2 (rewrite heap_get_set_ne by done). by rewrite heap_get_set.
    + rewrite !heap_get_set. apply map_eq. intros k.
      destruct (decide (k = "size")) as [->|?]; [by simplify_map_eq|].
      destruct (decide (k = "query")) as [->|?]; by simplify_map_eq.
Qed.

(** The world after two writes to the same map *)
Lemma heap_set_twice (l : loc) (m1 m2 : gmap string value) (w : world) :
  heap_set l m2 (heap_set l m1 w) = heap_set l m2 w.
Proof. unfold heap_set. simpl. by rewrite insert_insert_eq. Qed.

(** X3: the modifiers commute: [WithSize], [WithFrom] and [WithSort]
    applied to a query in either order leave the same world and return the
    same reference (and panic alike on a nil map). *)
Theorem modifiers_commute (query : mapref) (size from : Z) (field order : string)
    (w : world) :
  (q ← WithSize query size; WithFrom q from) w =
    (q ← WithFrom query from; WithSize q size) w ∧
  (q ← WithSize query size; WithSort q field order) w =
    (q ← WithSort query field order; WithSize q size) w ∧
  (q ← WithFrom query from; WithSort q field order) w =
    (q ← WithSort query field order; WithFrom q from) w.
Proof.
  destruct query as [l|]; [|done].
  unfold mbind, M_bind.
  rewrite (WithSize_run (Some l) size w), (WithFrom_run (Some l) from w),
    (WithSort_run (Some l) field order w).
  cbv beta iota. rewrite !WithSize_run, !WithFrom_run, !WithSort_run.
  rewrite !heap_get_set, !heap_set_twice.
  split_and!; do 2 f_equal; by apply insert_insert_ne.
Qed.

(** X4: a modifier overwrites: the second of two [WithSize] (or [WithFrom])
    wins, and a second [WithSort] replaces the first sort, it does not add a
    second sort key.  A modifier changes its own key only: every other
    key of the query and every other map is as before. *)
Theorem modifiers_overwrite (l : loc) (w : world) :
  (∀ a b, (q ← WithSize (Some l) a; WithSize q b) w = WithSize (Some l) b w) ∧
  (∀ a b, (q ← WithFrom (Some l) a; WithFrom q b) w = WithFrom (Some l) b w) ∧
  (∀ f1 o1 f2 o2,
     (q ← WithSort (Some l) f1 o1; WithSort q f2 o2) w =
       WithSort (Some l) f2 o2 w) ∧
  (∀ size from field order,
     ∀ modifier key,
       (modifier, key) ∈ [ (WithSize (Some l) size, "size");
                           (WithFrom (Some l) from, "from");
                           (WithSort (Some l) field order, "sort") ] →
       ∃ w', modifier w = (Ret (Some l), w') ∧
             wire w' = wire w ∧
             (∀ k, k ≠ key → heap_get w' l !! k = heap_get w l !! k) ∧
             (∀ l', l' ≠ l → heap w' !! l' = heap w !! l')).
Proof.
  split_and!.
  - intros a b. unfold mbind, M_bind. rewrite (WithSize_run (Some l) a w).
    cbv beta iota. rewrite !WithSize_run.
    by rewrite heap_get_set, heap_set_twice, insert_insert_eq.
  - intros a b. unfold mbind, M_bind. rewrite (WithFrom_run (Some l) a w).
    cbv beta iota. rewrite !WithFrom_run.
    by rewrite heap_get_set, heap_set_twice, insert_insert_eq.
  - intros f1 o1 f2 o2. unfold mbind, M_bind.
    rewrite (WithSort_run (Some l) f1 o1 w).
    cbv beta iota. rewrite !WithSort_run.
    by rewrite heap_get_set, heap_set_twice, insert_insert_eq.
  - intros size from field order modifier key Hin.
    repeat (apply elem_of_cons in Hin as [[= -> ->]|Hin];
            [eexists; split; [reflexivity|]; split; [done|]; split;
             [intros k Hk; rewrite heap_get_set; by rewrite lookup_insert_ne
             |intros l' Hl'; simpl; by rewrite lookup_insert_ne]|]).
    by apply not_elem_of_nil in Hin.
Qed.

(** X5: the negated builders and the multi-field builder are instances of
    [BoolQuery]: when [leaf] is a map holding the one leaf clause,
    [NotMatchQuery] and [NotTermQuery] build what [BoolQuery] builds for
    the single must-not clause [leaf]; and when the field-value map is not
    empty and [leaves] are maps holding its match leaves in the order of
    the [range], [MatchMapQuery] builds what [BoolQuery] builds for the
    must clauses [leaves]. *)
Theorem builders_are_BoolQuery_instances (w : world) :
  (∀ field text leaf,
     heap_get w leaf = {[ "match" := VMap {[ field := VString text ]} ]} →
     NotMatchQuery field text w = BoolQuery [] [] [Some leaf] w) ∧
  (∀ field v leaf,
     heap_get w leaf = {[ "term" := VMap {[ field := v ]} ]} →
     NotTermQuery field v w = BoolQuery [] [] [Some leaf] w) ∧
  (∀ fieldValues leaves,
     heap_get w fieldValues ≠ ∅ →
     Forall2 (λ leaf entry,
                heap_get w leaf = {[ "match" := VMap {[ entry.1 := entry.2 ]} ]})
             leaves (range_order (heap_get w fieldValues)) →
     MatchMapQuery (Some fieldValues) w = BoolQuery (Some <$> leaves) [] [] w).
Proof.
  split_and!.
  - intros field text leaf Hleaf.
    unfold NotMatchQuery, BoolQuery, snapshots, mbind, M_bind, boolQuery. simpl.
    by rewrite Hleaf, insert_empty.
  - intros field v leaf Hleaf.
    unfold NotTermQuery, BoolQuery, snapshots, mbind, M_bind, boolQuery. simpl.
    by rewrite Hleaf, insert_empty.
  - intros fieldValues leaves Hne Hleaves.
    unfold MatchMapQuery, BoolQuery, snapshots, mbind, M_bind, boolQuery.
    cbv beta iota.
    assert (Hfold : ∀ es acc,
      foldl append_match acc es =
        acc ++ ((λ entry, VMap {[ "match" := VMap {[ entry.1 := entry.2 ]} ]}) <$> es)).
    { induction es as [|e es IH]; intros acc; simpl.
      - by rewrite app_nil_r.
      - rewrite IH. unfold append_match. by rewrite <- app_assoc. }
    assert (Hsnap : snapshot_at w <$> (Some <$> leaves) =
              (λ entry, VMap {[ "match" := VMap {[ entry.1 := entry.2 ]} ]}) <$>
                range_order (heap_get w fieldValues)).
    { induction Hleaves as [|leaf entry leaves entries Hleaf _ IH]; [done|].
      rewrite !fmap_cons, IH. simpl. by rewrite Hleaf. }
    rewrite Hfold, Hsnap. clear Hsnap Hleaves.
    destruct (range_order (heap_get w fieldValues)) as [|e es] eqn:Hentries.
    + exfalso. apply Hne. apply map_to_list_empty_iff.
      apply Permutation_nil_r. rewrite <- Hentries. symmetry.
      apply range_order_perm.
    + simpl. by rewrite insert_empty.
Qed.

(** ** Search and index existence *)

(** What [SearchDocuments] does to the world: it reads the query, and
    sends one request unless the query cannot be encoded. *)
Lemma SearchDocuments_world (c : Client) (index : string) (query : mapref)
    (w : world) :
  ∃ r w', SearchDocuments c index query w = (r, w') ∧
    heap w' = heap w ∧
    match Marshal (snapshot_at w query) with
    | inl err =>
        w' = w ∧ r = Ret ([], Errorf ("failed to marshal query: " +:+ err))
    | inr body => w' = wire_add (SearchRequest [index] body) w
    end.
Proof.
  unfold SearchDocuments, snapshot, send, run, mbind, M_bind, mret, M_ret.
  destruct (Marshal (snapshot_at w query)) as [err|body]; [by eexists _, _|].
  destruct (Do _ _ _) as [?|res]; [by eexists _, _|].
  destruct (IsError res); [by eexists _, _|].
  destruct (parseResponse _ _) as [?|response]; [by eexists _, _|].
  destruct (search_results _ _); by eexists _, _.
Qed.

(** The loop over the hits panics iff some hit has no source map. *)
Lemma search_results_Panic (hits : list Hit) (acc : list (gmap string value)) :
  (∃ msg, search_results hits acc = Panic msg) ↔
  ∃ hit, hit ∈ hits ∧ hit_Source hit = None.
Proof.
  revert acc. induction hits as [|hit hits IH]; intros acc; simpl.
  - split; [by intros [? [=]]|]. intros (hit & Hin & _).
    by apply not_elem_of_nil in Hin.
  - destruct (hit_Source hit) as [source|] eqn:Hsrc.
    + rewrite IH. split.
      * intros (hit' & Hin & Hnone). exists hit'. split; [by right|done].
      * intros (hit' & Hin & Hnone).
        apply elem_of_cons in Hin as [->|Hin]; [congruence|]. by exists hit'.
    + split; [|by eexists]. intros _. exists hit. split; [by left|done].
Qed.

Lemma search_results_Panic_msg (hits : list Hit) (acc : list (gmap string value))
    (msg : string) :
  search_results hits acc = Panic msg → msg = "assignment to entry in nil map".
Proof.
  revert acc. induction hits as [|hit hits IH]; intros acc; simpl; [done|].
  destruct (hit_Source hit); [apply IH|]. by intros [= <-].
Qed.

(** X6: [SearchDocuments] never changes a map (the query is only read) and
    puts at most one request on the wire: the search request with the encoded
    query, or nothing when the query cannot be encoded.  Whenever it returns
    an error the result list is empty: no partial result comes with an
    error. *)
Theorem SearchDocuments_only_reads (c : Client) (index : string)
    (query : mapref) (w : world) :
  ∃ r w', SearchDocuments c index query w = (r, w') ∧
    heap w' = heap w ∧
    match Marshal (snapshot_at w query) with
    | inl err =>
        w' = w ∧ r = Ret ([], Errorf ("failed to marshal query: " +:+ err))
    | inr body => wire w' = wire w ++ [SearchRequest [index] body]
    end ∧
    (∀ results msg, r = Ret (results, Errorf msg) → results = []).
Proof.
  destruct (SearchDocuments_world c index query w) as (r & w' & Hrun & Hheap & Hw).
  exists r, w'. split; [done|]. split; [done|]. split.
  { destruct (Marshal (snapshot_at w query)); [done|]. by subst w'. }
  intros results msg ->. revert Hrun.
  unfold SearchDocuments, snapshot, send, run, parseResponse,
    mbind, M_bind, mret, M_ret.
  destruct (Marshal (snapshot_at w query)) as [err|body]; [by intros [= <-]|].
  destruct (Do _ _ _) as [?|res]; [by intros [= <-]|].
  destruct (IsError res); [by intros [= <-]|].
  destruct (Decode_SearchResponse _) as [?|response]; [by intros [= <-]|].
  destruct (search_results _ _); by intros [=].
Qed.

(** X7: [SearchDocuments] panics exactly when the search went through (the
    query encoded, the response was not an error status and decoded) and
    some hit of the response carries no source map: the write of ["_id"]
    into the hit's nil map is the panic, and the request has been sent. *)
Theorem SearchDocuments_panics_on_missing_source (c : Client) (index : string)
    (query : mapref) (w : world) :
  ((∃ msg w', SearchDocuments c index query w = (Panic msg, w')) ↔
   ∃ body res response,
     Marshal (snapshot_at w query) = inr body ∧
     Do (client c) (wire w) (SearchRequest [index] body) = inr res ∧
     IsError res = false ∧
     Decode_SearchResponse (Body res) = inr response ∧
     ∃ hit, hit ∈ sr_Hits response ∧ hit_Source hit = None) ∧
  (∀ msg w', SearchDocuments c index query w = (Panic msg, w') →
     msg = "assignment to entry in nil map" ∧
     ∃ body, w' = wire_add (SearchRequest [index] body) w).
Proof.
  unfold SearchDocuments, snapshot, send, run, parseResponse,
    mbind, M_bind, mret, M_ret. simpl.
  destruct (Marshal (snapshot_at w query)) as [err|body] eqn:Hbody.
  { split; [split|]; [by intros (? & ? & [=])| |by intros ?? [=]].
    by intros (? & ? & ? & [=] & _). }
  simpl.
  destruct (Do (client c) (wire w) (SearchRequest [index] body)) as [?|res] eqn:Hdo.
  { split; [split|]; [by intros (? & ? & [=])| |by intros ?? [=]].
    intros (? & ? & ? & [= <-] & Hdo' & _). congruence. }
  destruct (IsError res) eqn:Herr.
  { split; [split|]; [by intros (? & ? & [=])| |by intros ?? [=]].
    intros (? & ? & ? & [= <-] & Hdo' & Herr' & _). congruence. }
  destruct (Decode_SearchResponse (Body res)) as [?|response] eqn:Hdec.
  { split; [split|]; [by intros (? & ? & [=])| |by intros ?? [=]].
    intros (? & ? & ? & [= <-] & Hdo' & _ & Hdec' & _). congruence. }
  destruct (search_results (sr_Hits response) []) as [docs|msg] eqn:Hloop.
  - split; [split|]; [by intros (? & ? & [=])| |by intros ?? [=]].
    intros (? & ? & ? & [= <-] & Hdo' & _ & Hdec' & Hhit).
    rewrite Hdo in Hdo'. injection Hdo' as <-.
    rewrite Hdec in Hdec'. injection Hdec' as <-.
    destruct (proj2 (search_results_Panic (sr_Hits response) []) Hhit)
      as [msg Hmsg].
    congruence.
  - split; [split|].
    + intros _. exists body, res, response. split_and!; try done.
      apply (search_results_Panic _ []). by eexists.
    + intros _. by eexists _, _.
    + intros msg' w' [= <- <-].
      split; [by eapply search_results_Panic_msg|by eexists].
Qed.

(** X8: [SearchAll] sends the search request whose body is the encoding of
    the match-all query, whatever the world holds, or nothing when that
    cannot be encoded; it leaves every map that was in the heap as it
    was. *)
Theorem SearchAll_sends_match_all (c : Client) (index : string) (w : world) :
  let query := VMap {[ "query" := VMap {[ "match_all" := VMap ∅ ]} ]} in
  ∃ r w', SearchAll c index w = (r, w') ∧
    (∀ l, is_Some (heap w !! l) → heap w' !! l = heap w !! l) ∧
    match Marshal query with
    | inl err =>
        wire w' = wire w ∧
        r = Ret ([], Errorf ("failed to marshal query: " +:+ err))
    | inr body => wire w' = wire w ++ [SearchRequest [index] body]
    end.
Proof.
  cbv zeta.
  destruct (make_map_fresh {[ "query" := VMap {[ "match_all" := VMap ∅ ]} ]} w)
    as (l & Hmake & Hfresh).
  destruct (SearchDocuments_world c index (Some l)
              (heap_set l {[ "query" := VMap {[ "match_all" := VMap ∅ ]} ]} w))
    as (r & w' & Hrun & Hheap & Hw).
  exists r, w'. split.
  { unfold SearchAll, mbind, M_bind. by rewrite Hmake. }
  split.
  { intros l' [m Hl']. rewrite Hheap. simpl. apply lookup_insert_ne.
    intros <-. congruence. }
  simpl in Hw. rewrite heap_get_set in Hw.
  destruct (Marshal _); [by destruct Hw as [-> ->]|]. by subst w'.
Qed.

(** X9: [IndexExists] sends exactly one existence request and touches no
    map; it answers [true] exactly when the response has a status of at most
    299, and then without an error. *)
Theorem IndexExists_true_iff_success (c : Client) (index : string) (w : world) :
  ∃ found err,
    IndexExists c index w =
      (Ret (found, err), wire_add (IndicesExistsRequest [index]) w) ∧
    (found = true ↔
       ∃ res, Do (client c) (wire w) (IndicesExistsRequest [index]) = inr res ∧
              (StatusCode res ≤ 299)%Z) ∧
    (if found then err = err_nil else True).
Proof.
  unfold IndexExists, send, IsError, mbind, M_bind, mret, M_ret. simpl.
  destruct (Do (client c) (wire w) (IndicesExistsRequest [index])) as [err|res].
  { eexists _, _. split; [done|]. split; [|done].
    split; [done|]. by intros (? & [=] & _). }
  destruct (Z.eqb_spec (StatusCode res) 404) as [H404|H404].
  { eexists _, _. split; [done|]. split; [|done].
    split; [done|]. intros (? & [= <-] & ?). lia. }
  destruct (Z.ltb_spec 299 (StatusCode res)).
  - eexists _, _. split; [done|]. split; [|done].
    split; [done|]. intros (? & [= <-] & ?). lia.
  - eexists _, _. split; [done|]. split; [|done].
    split; [|done]. intros _. exists res. split; [done|lia].
Qed.

(** ** Bulk indexing, a second time *)



(** ** The remaining operations *)

Lemma string_app_cons (a : Ascii.ascii) (s t : string) :
  String a s +:+ t = String a (s +:+ t).
Proof. reflexivity. Qed.

(** Runs an operation on the answer to its call and compares the
    messages. *)
Ltac operation_cases :=
  unfold answer, perform, read_map, parseResponse,
    mbind, K_bind, mret, K_ret in *; simpl in *;
  repeat match goal with
         | H : context [match ?x with inl _ => _ | inr _ => _ end] |- _ =>
             destruct x eqn:?; simpl in H
         | H : context [if ?b then _ else _] |- _ => destruct b eqn:?; simpl in H
         | |- context [match ?x with inl _ => _ | inr _ => _ end] =>
             destruct x eqn:?; simpl
         | |- context [if ?b then _ else _] => destruct b eqn:?; simpl
         end.

(** Closes the cases of a call that is not answered with status 404 by
    comparing the messages, and gives the answer in the other cases. *)
Ltac not_found_cases :=
  simplify_eq; rewrite ?string_app_cons in *;
  first [ congruence
        | eexists; (split; [done|]); by apply Z.eqb_eq ].

Lemma status_404_is_error (res : Response) :
  StatusCode res = 404%Z → IsError res = true.
Proof. unfold IsError. by intros ->. Qed.

Lemma status_ok_iff (res : Response) :
  IsError res = false ↔ (StatusCode res ≤ 299)%Z.
Proof. unfold IsError. rewrite Z.ltb_ge. done. Qed.

(** X11: a missing document or index is reported as such.  [GetDocument],
    [DeleteDocument] and, once the updates are encoded, [UpdateDocument]
    return the error "document not found" exactly when their call is
    answered with status 404, and [DeleteIndex] returns "index not found"
    exactly then; no other failure gives these messages. *)
Theorem not_found_iff_status_404 (c : Client) (index id : string)
    (updates : value) (s : cluster) :
  ((GetDocument c index id s).1 = Ret (None, Errorf "document not found") ↔
     ∃ res, answer c s (GetRequest index id) = inr res ∧
            StatusCode res = 404%Z) ∧
  ((DeleteDocument c index id s).1 = Ret (Errorf "document not found") ↔
     ∃ res, answer c s (DeleteRequest index id "true") = inr res ∧
            StatusCode res = 404%Z) ∧
  (∀ body, Marshal (VMap {[ "doc" := updates ]}) = inr body →
     ((UpdateDocument c index id updates s).1 = Ret (Errorf "document not found") ↔
        ∃ res, answer c s (UpdateRequest index id body "true") = inr res ∧
               StatusCode res = 404%Z)) ∧
  ((DeleteIndex c index s).1 = Ret (Errorf "index not found") ↔
     ∃ res, answer c s (IndicesDeleteRequest [index]) = inr res ∧
            StatusCode res = 404%Z).
Proof.
  split_and!; [| |intros body Hbody|]; split.
  - unfold GetDocument. intros Hrun. operation_cases; not_found_cases.
  - intros (res & Hres & Hcode). unfold GetDocument. unfold answer in Hres.
    unfold perform, mbind, K_bind, mret, K_ret. simpl. rewrite Hres.
    by rewrite status_404_is_error, Hcode.
  - unfold DeleteDocument. intros Hrun. operation_cases; not_found_cases.
  - intros (res & Hres & Hcode). unfold DeleteDocument. unfold answer in Hres.
    unfold perform, mbind, K_bind, mret, K_ret. simpl. rewrite Hres.
    by rewrite status_404_is_error, Hcode.
  - unfold UpdateDocument. cbv zeta. rewrite Hbody. intros Hrun. operation_cases; not_found_cases.
  - intros (res & Hres & Hcode). unfold UpdateDocument. cbv zeta. rewrite Hbody.
    unfold answer in Hres.
    unfold perform, mbind, K_bind, mret, K_ret. simpl. rewrite Hres.
    by rewrite status_404_is_error, Hcode.
  - unfold DeleteIndex. intros Hrun. operation_cases; not_found_cases.
  - intros (res & Hres & Hcode). unfold DeleteIndex. unfold answer in Hres.
    unfold perform, mbind, K_bind, mret, K_ret. simpl. rewrite Hres.
    by rewrite status_404_is_error, Hcode.
Qed.

(** X12: what goes out.  [Ping], [Info], [GetDocument], [DeleteDocument]
    and [DeleteIndex] make exactly one call each, whatever comes back;
    [CreateDocument] and [UpdateDocument] encode first (the updates under
    ["doc"]) and make their one call, with the encoded body, only when
    that succeeds, otherwise they return the encoder's error and nothing
    is sent.  The writes ask for a refresh.  None of the operations changes
    a map or the log of requests, and none panics. *)
Theorem operations_make_one_call (c : Client) (index id : string)
    (document updates : value) (s : cluster) :
  (∃ err, Ping c s = (Ret err, after_call s PingRequest)) ∧
  (∃ r, Info c s = (Ret r, after_call s InfoCall)) ∧
  (∃ r, GetDocument c index id s = (Ret r, after_call s (GetRequest index id))) ∧
  (∃ err, DeleteDocument c index id s =
            (Ret err, after_call s (DeleteRequest index id "true"))) ∧
  (∃ err, DeleteIndex c index s =
            (Ret err, after_call s (IndicesDeleteRequest [index]))) ∧
  (∀ body, Marshal document = inr body →
     ∃ err, CreateDocument c index id document s =
              (Ret err, after_call s (IndexRequest index id body "true"))) ∧
  (∀ cause, Marshal document = inl cause →
     CreateDocument c index id document s =
       (Ret (Errorf ("failed to marshal document: " +:+ cause)), s)) ∧
  (∀ body, Marshal (VMap {[ "doc" := updates ]}) = inr body →
     ∃ err, UpdateDocument c index id updates s =
              (Ret err, after_call s (UpdateRequest index id body "true"))) ∧
  (∀ cause, Marshal (VMap {[ "doc" := updates ]}) = inl cause →
     UpdateDocument c index id updates s =
       (Ret (Errorf ("failed to marshal updates: " +:+ cause)), s)).
Proof.
  split_and!; try (intros ? Hbody);
    unfold Ping, Info, GetDocument, DeleteDocument, DeleteIndex,
      CreateDocument, UpdateDocument, after_call; cbv zeta;
    rewrite ?Hbody; operation_cases; try done; by eexists.
Qed.

(** The tail of [CreateIndex]: the call goes out with the body it was
    given, and succeeds exactly when it is answered with a non-error
    status. *)
Lemma create_index_run (c : Client) (index : string) (bodyReader : option bytes)
    (s : cluster) :
  ∃ err, create_index c index bodyReader s =
           (Ret err, after_call s (IndicesCreateRequest index bodyReader)) ∧
    (err = err_nil ↔
       ∃ res, answer c s (IndicesCreateRequest index bodyReader) = inr res ∧
              (StatusCode res ≤ 299)%Z).
Proof.
  unfold create_index, after_call, answer, perform, mbind, K_bind, mret, K_ret.
  simpl. destruct (Perform _ _ _ _) as [?|res] eqn:Hres; simpl.
  { eexists. split; [done|]. cases_done. }
  destruct (IsError res) eqn:Herr; simpl; eexists; (split; [done|]).
  - split; [done|]. intros (res' & ? & Hok). simplify_eq.
    apply status_ok_iff in Hok. congruence.
  - split; [|done]. intros _. exists res. split; [done|].
    by apply status_ok_iff.
Qed.

(** X13: [CreateIndex] sends a body exactly when it is given a map: with a
    nil map the creation call has no body; with a map, even an empty one,
    the body is the encoding of the map's present content, and when that
    cannot be encoded the call is not made and the encoder's error is
    returned.  Once the call is made the operation succeeds exactly when
    it is answered with a non-error status. *)
Theorem CreateIndex_sends_body_iff_map (c : Client) (index : string)
    (s : cluster) :
  (∃ err, CreateIndex c index None s =
            (Ret err, after_call s (IndicesCreateRequest index None)) ∧
     (err = err_nil ↔
        ∃ res, answer c s (IndicesCreateRequest index None) = inr res ∧
               (StatusCode res ≤ 299)%Z)) ∧
  (∀ l bodyBytes,
     Marshal (VMap (heap_get (local s) l)) = inr bodyBytes →
     ∃ err, CreateIndex c index (Some l) s =
              (Ret err, after_call s (IndicesCreateRequest index (Some bodyBytes))) ∧
       (err = err_nil ↔
          ∃ res, answer c s (IndicesCreateRequest index (Some bodyBytes)) = inr res ∧
                 (StatusCode res ≤ 299)%Z)) ∧
  (∀ l cause,
     Marshal (VMap (heap_get (local s) l)) = inl cause →
     CreateIndex c index (Some l) s =
       (Ret (Errorf ("failed to marshal index body: " +:+ cause)), s)).
Proof.
  split_and!.
  - apply create_index_run.
  - intros l bodyBytes Hbody. unfold CreateIndex, read_map, mbind, K_bind.
    simpl. rewrite Hbody. apply create_index_run.
  - intros l cause Hbody. unfold CreateIndex, read_map, mbind, K_bind.
    simpl. by rewrite Hbody.
Qed.

(** Gives the answer and its status in the cases where an operation has
    succeeded, and closes the others. *)
Ltac success_cases :=
  simplify_eq;
  repeat match goal with
         | H : IsError _ = false |- _ => apply status_ok_iff in H
         | H : (StatusCode _ ≤ 299)%Z, H' : IsError _ = true |- _ =>
             apply status_ok_iff in H; congruence
         end;
  try done; try congruence; eauto 10.

(** X14: [GetDocument] returns a nil error exactly when its call is
    answered with a non-error status and a body that decodes; the map it
    returns is then the [_source] of the decoded response, whether or not
    the response says that the document was found (the flag is not read);
    with an error the map is nil.  [Info] likewise returns the decoded
    object, and nil with an error. *)
Theorem GetDocument_returns_decoded_source (c : Client) (index id : string)
    (s : cluster) :
  (∀ source,
     (GetDocument c index id s).1 = Ret (source, err_nil) ↔
     ∃ res response,
       answer c s (GetRequest index id) = inr res ∧
       (StatusCode res ≤ 299)%Z ∧
       Decode_GetResponse (Body res) = inr response ∧
       gr_Source response = source) ∧
  (∀ source msg,
     (GetDocument c index id s).1 = Ret (source, Errorf msg) → source = None) ∧
  (∀ info,
     (Info c s).1 = Ret (info, err_nil) ↔
     ∃ res,
       answer c s InfoCall = inr res ∧
       (StatusCode res ≤ 299)%Z ∧
       Decode_object (Body res) = inr info) ∧
  (∀ info msg, (Info c s).1 = Ret (info, Errorf msg) → info = None).
Proof.
  split_and!.
  - intros source. split.
    + unfold GetDocument. intros Hrun. operation_cases; success_cases.
    + intros (res & response & Hres & Hok & Hdec & <-).
      apply status_ok_iff in Hok. unfold GetDocument.
      operation_cases; success_cases.
  - intros source msg. unfold GetDocument. intros Hrun.
    operation_cases; success_cases.
  - intros info. split.
    + unfold Info. intros Hrun. operation_cases; success_cases.
    + intros (res & Hres & Hok & Hdec).
      apply status_ok_iff in Hok. unfold Info.
      operation_cases; success_cases.
  - intros info msg. unfold Info. intros Hrun.
    operation_cases; success_cases.
Qed.

(** X15: [Ping], the writes and [DeleteIndex] succeed exactly when their
    call is answered with a non-error status (at most 299): a transport
    failure, any error status and, for [CreateDocument] and
    [UpdateDocument], a document that cannot be encoded all give an
    error. *)
Theorem operations_succeed_iff_status_ok (c : Client) (index id : string)
    (document updates : value) (s : cluster) :
  ((Ping c s).1 = Ret err_nil ↔
     ∃ res, answer c s PingRequest = inr res ∧ (StatusCode res ≤ 299)%Z) ∧
  ((DeleteDocument c index id s).1 = Ret err_nil ↔
     ∃ res, answer c s (DeleteRequest index id "true") = inr res ∧
            (StatusCode res ≤ 299)%Z) ∧
  ((DeleteIndex c index s).1 = Ret err_nil ↔
     ∃ res, answer c s (IndicesDeleteRequest [index]) = inr res ∧
            (StatusCode res ≤ 299)%Z) ∧
  ((CreateDocument c index id document s).1 = Ret err_nil ↔
     ∃ body res,
       Marshal document = inr body ∧
       answer c s (IndexRequest index id body "true") = inr res ∧
       (StatusCode res ≤ 299)%Z) ∧
  ((UpdateDocument c index id updates s).1 = Ret err_nil ↔
     ∃ body res,
       Marshal (VMap {[ "doc" := updates ]}) = inr body ∧
       answer c s (UpdateRequest index id body "true") = inr res ∧
       (StatusCode res ≤ 299)%Z).
Proof.
  split_and!; split.
  - unfold Ping. intros Hrun. operation_cases; success_cases.
  - intros (res & Hres & Hok). apply status_ok_iff in Hok. unfold Ping.
    operation_cases; success_cases.
  - unfold DeleteDocument. intros Hrun. operation_cases; success_cases.
  - intros (res & Hres & Hok). apply status_ok_iff in Hok. unfold DeleteDocument.
    operation_cases; success_cases.
  - unfold DeleteIndex. intros Hrun. operation_cases; success_cases.
  - intros (res & Hres & Hok). apply status_ok_iff in Hok. unfold DeleteIndex.
    operation_cases; success_cases.
  - unfold CreateDocument. intros Hrun. operation_cases; success_cases.
  - intros (body & res & Hbody & Hres & Hok). apply status_ok_iff in Hok.
    unfold CreateDocument. rewrite Hbody. operation_cases; success_cases.
  - unfold UpdateDocument. cbv zeta. intros Hrun. operation_cases; success_cases.
  - intros (body & res & Hbody & Hres & Hok). apply status_ok_iff in Hok.
    unfold UpdateDocument. cbv zeta. rewrite Hbody.
    operation_cases; success_cases.
Qed.

End further_properties.

(** * The statements at concrete inputs *)

(** C1, the claim as stated fails: the response to a one-document bulk
    request has its [errors] flag set, its only item has no error type, and
    [BulkCreate] sends the request and returns nil. *)
Lemma BulkCreate_flag_without_type_returns_nil :
  let table : bytes → string + BulkResponse := λ _, inr Sample.untyped_failure in
  let c := Sample.handle (Sample.ok_server "r") Sample.no_search table in
  [Some 1%positive] ≠ @nil mapref ∧
  Errors Sample.untyped_failure = true ∧
  BulkCreate c "articles" [Some 1%positive] Sample.one_document =
    (Ret err_nil,
     World {[ 1%positive := {[ "title" := VString "a" ]} ]}
           [ BulkRequest
               (write_pairs [ ("{" +:+ Sample.quote +:+ "index" +:+ Sample.quote +:+ ":{"
                                +:+ Sample.quote +:+ "_id" +:+ Sample.quote +:+ ":"
                                +:+ Sample.quote +:+ "1" +:+ Sample.quote +:+ ","
                                +:+ Sample.quote +:+ "_index" +:+ Sample.quote +:+ ":"
                                +:+ Sample.quote +:+ "articles" +:+ Sample.quote +:+ "}}",
                               "{" +:+ Sample.quote +:+ "title" +:+ Sample.quote +:+ ":"
                                +:+ Sample.quote +:+ "a" +:+ Sample.quote +:+ "}") ])
               "true" ]).
Proof. cbv zeta. split; [done|]. split; [done|]. vm_compute. reflexivity. Qed.

(** C1 at a response whose only item carries an error type: the call fails
    with the description of that item. *)
Lemma BulkCreate_reports_item_errors_witness :
  let table : bytes → string + BulkResponse := λ _, inr Sample.typed_failure in
  let c := Sample.handle (Sample.ok_server "r") Sample.no_search table in
  (BulkCreate c "articles" [Some 1%positive] Sample.one_document).1 =
    Ret (Errorf "bulk operation had errors: mapper_parsing_exception: failed to parse").
Proof.
  cbv zeta.
  edestruct (BulkCreate_reports_item_errors
               (Sample.handle (Sample.ok_server "r") Sample.no_search
                              (λ _, inr Sample.typed_failure))
               "articles" [Some 1%positive] Sample.one_document)
    as [_ Hrun];
    [ done
    | vm_compute; reflexivity
    | vm_compute; reflexivity
    | reflexivity
    | vm_compute; reflexivity
    | reflexivity
    | ].
  rewrite Hrun. vm_compute. reflexivity.
Defined.

(** C2, the claim as stated fails: the address list is not empty, the
    wrapped constructor rejects the address, and [NewClient] returns no
    handle but the wrapped error. *)
Lemma NewClient_nonempty_without_handle :
  let E := Sample.externals (Sample.ok_server "r") Sample.no_search Sample.no_bulk in
  let config := mkConfig [":9200"] EmptyString EmptyString false in
  Addresses config ≠ [] ∧
  @NewClient E config =
    (None,
     Errorf ("failed to create OpenSearch client: " +:+
             "cannot create client: cannot parse url: parse " +:+
             Sample.quote +:+ ":9200" +:+ Sample.quote +:+
             ": missing protocol scheme")).
Proof. cbv zeta. split; [done|]. vm_compute. reflexivity. Qed.

(** C2 at the empty configuration and at the local cluster. *)
Lemma NewClient_empty_iff_invalid_witness :
  let E := Sample.externals (Sample.ok_server "r") Sample.no_search Sample.no_bulk in
  (@NewClient E (mkConfig [] "admin" "admin" true)).1 = None ∧
  (@NewClient E (mkConfig [] "admin" "admin" true)).2 =
    Errorf "at least one address is required" ∧
  @NewClient E (mkConfig Sample.localhost "admin" "admin" true) =
    (Some (@mkClient E Sample.localhost), err_nil).
Proof.
  cbv zeta.
  set (E := Sample.externals (Sample.ok_server "r") Sample.no_search Sample.no_bulk).
  destruct (@NewClient_empty_iff_invalid E (mkConfig [] "admin" "admin" true))
    as (Hiff & Hnone & _).
  destruct (@NewClient_empty_iff_invalid E (mkConfig Sample.localhost "admin" "admin" true))
    as (_ & _ & Hsome).
  split; [apply Hnone; reflexivity|].
  split; [apply Hiff; reflexivity|].
  destruct Hsome as ([addrs user pass transport] & Ha & Hu & Hp & Ht & Hrun);
    [done|].
  simpl in Ha, Hu, Hp, Ht. subst. exact Hrun.
Defined.

(** C7 at a server that answers 404, and at one that answers 500. *)
Lemma IndexExists_not_found_is_false_witness :
  (IndexExists
     (Sample.handle (Sample.status_server 404 "404 Not Found")
                    Sample.no_search Sample.no_bulk)
     "articles" Sample.empty_world).1 = Ret (false, err_nil) ∧
  ∃ msg,
    (IndexExists
       (Sample.handle (Sample.status_server 500 "500 Internal Server Error")
                      Sample.no_search Sample.no_bulk)
       "articles" Sample.empty_world).1 = Ret (false, Errorf msg).
Proof.
  split.
  - eapply (IndexExists_not_found_is_false
              (Sample.handle (Sample.status_server 404 "404 Not Found")
                             Sample.no_search Sample.no_bulk)
              "articles" Sample.empty_world); reflexivity.
  - apply (IndexExists_not_found_is_false
             (Sample.handle (Sample.status_server 500 "500 Internal Server Error")
                            Sample.no_search Sample.no_bulk)
             "articles" Sample.empty_world).
    right. eexists. split; [reflexivity|]. split; [reflexivity|done].
Defined.

(** C8 at a response with two hits: the call succeeds with two documents,
    the first being the first hit's source with its identifier and score. *)
Lemma SearchDocuments_annotates_hits_witness :
  let table : bytes → string + SearchResponse := λ _, inr Sample.two_hits in
  let c := Sample.handle (Sample.ok_server "r") table Sample.no_bulk in
  ∃ results w',
    SearchDocuments c "articles" (Some 1%positive) Sample.match_all_world =
      (Ret (results, err_nil), w') ∧
    length results = 2 ∧
    results !! 0 =
      Some (<[ "_score" := VFloat 1%float ]>
              (<[ "_id" := VString "1" ]> {[ "title" := VString "a" ]})).
Proof.
  cbv zeta.
  set (c := Sample.handle (Sample.ok_server "r") (λ _, inr Sample.two_hits)
                          Sample.no_bulk).
  destruct (SearchDocuments_annotates_hits c "articles" (Some 1%positive)
              Sample.match_all_world) as [Hresult Hruns].
  edestruct Hruns as (results & Hrun);
    [ vm_compute; reflexivity
    | vm_compute; reflexivity
    | reflexivity
    | vm_compute; reflexivity
    | | ].
  { intros hit Hhit. simpl in Hhit.
    repeat (apply elem_of_cons in Hhit as [->|Hhit]; [by eexists|]).
    by apply not_elem_of_nil in Hhit. }
  destruct (Hresult _ _ Hrun)
    as (body & res & response & _ & _ & _ & Hdec & _ & Hlen & Hhits).
  change (@inr string SearchResponse Sample.two_hits = inr response) in Hdec.
  injection Hdec as <-.
  eexists _, _. split; [exact Hrun|]. split; [exact Hlen|].
  destruct (Hhits 0 _ eq_refl) as (source & Hsource & ->).
  injection Hsource as <-. reflexivity.
Defined.

(** C9, the claim as stated fails: the first document of the list cannot
    be encoded, the call returns the encoder's error without sending
    anything, and the second document, which has an identifier, still has
    it in the caller's map. *)
Lemma BulkCreate_leaves_id_after_failure :
  let c := Sample.handle (Sample.ok_server "r") Sample.no_search Sample.no_bulk in
  let documents := [Some 1%positive; Some 2%positive] in
  let run := BulkCreate c "articles" documents Sample.nan_then_document in
  Some 2%positive ∈ documents ∧
  heap_get Sample.nan_then_document 2%positive !! "_id" = Some (VString "2") ∧
  run.1 = Ret (Errorf "failed to marshal document: json: unsupported value: NaN") ∧
  heap_get run.2 2%positive !! "_id" = Some (VString "2") ∧
  wire run.2 = [].
Proof.
  cbv zeta. split; [by right; left|]. vm_compute. done.
Qed.

(** C9 at two documents with identifiers: the request is sent and both maps
    have lost ["_id"]; at a list whose second document cannot be encoded:
    the call returns the encoder's error and sends nothing, and the first
    document has lost its identifier; and at the same two documents in the
    other order: the document after the one that cannot be encoded keeps
    its identifier. *)
Lemma BulkCreate_moves_ids_witness :
  let c := Sample.handle (Sample.ok_server "r") Sample.no_search Sample.no_bulk in
  (∃ err w' body,
     BulkCreate c "articles" [Some 1%positive; Some 2%positive]
                Sample.two_documents = (Ret err, w') ∧
     wire w' = [BulkRequest body "true"] ∧
     heap_get w' 1%positive = {[ "title" := VString "a" ]} ∧
     heap_get w' 2%positive = {[ "title" := VString "b" ]}) ∧
  (∃ w',
     BulkCreate c "articles" [Some 2%positive; Some 1%positive]
                Sample.nan_then_document =
       (Ret (Errorf "failed to marshal document: json: unsupported value: NaN"), w') ∧
     wire w' = [] ∧
     heap_get w' 2%positive = {[ "title" := VString "b" ]}) ∧
  (∃ w',
     BulkCreate c "articles" [Some 1%positive; Some 2%positive]
                Sample.nan_then_document =
       (Ret (Errorf "failed to marshal document: json: unsupported value: NaN"), w') ∧
     wire w' = [] ∧
     heap_get w' 2%positive =
       {[ "_id" := VString "2"; "title" := VString "b" ]}).
Proof.
  cbv zeta.
  set (c := Sample.handle (Sample.ok_server "r") Sample.no_search Sample.no_bulk).
  split; [|split].
  - destruct (BulkCreate_moves_ids c "articles" [Some 1%positive; Some 2%positive]
                Sample.two_documents) as (_ & _ & Hcomplete & _).
    destruct Hcomplete as (err & w' & pairs & Hrun & Hwire & Hin & _); [done| |].
    { intros [|[|i]] doc Hi; simpl in Hi; [| |done];
        injection Hi as <-; split; eexists; vm_compute; reflexivity. }
    exists err, w'. eexists. split; [exact Hrun|]. split; [exact Hwire|].
    split.
    + destruct (Hin 1%positive) as [-> _]; [by left|]. vm_compute. reflexivity.
    + destruct (Hin 2%positive) as [-> _]; [by right; left|]. vm_compute. reflexivity.
  - destruct (BulkCreate_moves_ids c "articles" [Some 2%positive; Some 1%positive]
                Sample.nan_then_document) as (_ & _ & _ & Hfailed).
    destruct (Hfailed 1 (Some 1%positive)
                "failed to marshal document: json: unsupported value: NaN")
      as (w' & Hrun & Hwire & Hin & _); [done| | |].
    { intros [|i] doc Hi Hdoc; [|lia]. simpl in Hdoc. injection Hdoc as <-.
      split; eexists; vm_compute; reflexivity. }
    { right. eexists _, _. split; [vm_compute; reflexivity|].
      split; [vm_compute; reflexivity|reflexivity]. }
    exists w'. split; [exact Hrun|]. split; [exact Hwire|].
    destruct (Hin 2%positive) as [-> _]; [by left|]. vm_compute. reflexivity.
  - destruct (BulkCreate_moves_ids c "articles" [Some 1%positive; Some 2%positive]
                Sample.nan_then_document) as (_ & _ & _ & Hfailed).
    destruct (Hfailed 0 (Some 1%positive)
                "failed to marshal document: json: unsupported value: NaN")
      as (w' & Hrun & Hwire & _ & Hout); [done| | |].
    { intros i doc Hi. lia. }
    { right. eexists _, _. split; [vm_compute; reflexivity|].
      split; [vm_compute; reflexivity|reflexivity]. }
    exists w'. split; [exact Hrun|]. split; [exact Hwire|].
    rewrite Hout; [vm_compute; reflexivity|].
    intros Hin. apply elem_of_cons in Hin as [Heq|Hin]; [done|].
    by apply not_elem_of_nil in Hin.
Defined.

(** * The further properties at concrete inputs *)


(** X7 at a response whose only hit carries no source map: the call
    panics with the message of a write to a nil map. *)
Lemma SearchDocuments_panics_on_missing_source_witness :
  let response :=
    mkSearchResponse 1 1 "eq" 1%float [mkHit "articles" "1" 1%float None] in
  let table : bytes → string + SearchResponse := λ _, inr response in
  let c := Sample.handle (Sample.ok_server "r") table Sample.no_bulk in
  ∃ w',
    SearchDocuments c "articles" (Some 1%positive) Sample.match_all_world =
      (Panic "assignment to entry in nil map", w').
Proof.
  cbv zeta.
  set (response :=
         mkSearchResponse 1 1 "eq" 1%float [mkHit "articles" "1" 1%float None]).
  set (c := Sample.handle (Sample.ok_server "r") (λ _, inr response)
                          Sample.no_bulk).
  destruct (SearchDocuments_panics_on_missing_source c "articles"
              (Some 1%positive) Sample.match_all_world) as [Hiff Hmsg].
  destruct (proj2 Hiff) as (msg & w' & Hrun).
  { eexists _, _, response. split; [vm_compute; reflexivity|].
    split; [vm_compute; reflexivity|]. split; [reflexivity|].
    split; [reflexivity|]. eexists. split; [by left|done]. }
  destruct (Hmsg _ _ Hrun) as [-> _]. by exists w'.
Defined.
